(** * Legator scheduling and execution core: a shallow embedding

  The Go sources of the scheduler, the tool classifiers, the retention
  sweeper, the drain coordinator and the credential manager are embedded
  as Rocq functions, and the properties the specification states about
  them are proved (or refuted) on those functions.

  Conventions of the embedding:
  - a Go [map[string]T] is a [gmap string T];
  - [time.Time] is an instant counted in nanoseconds ([Z]), the zero
    [time.Time{}] being [0]; [time.Duration] is an [int64] count of
    nanoseconds, kept as a [Z];
  - a method that reads [time.Now()] takes the reading as an argument;
  - a method that mutates its receiver returns the new receiver;
  - mutexes are not modelled: every method body runs under its lock, so a
    call is one atomic step. *)

From Stdlib Require Import ZArith Lia Ascii String.
From Stdlib Require Import Floats.PrimFloat Floats.FloatOps Floats.SpecFloat.
From Stdlib Require Import Numbers.Cyclic.Int63.Uint63.
From stdpp Require Import gmap strings list fin_maps pretty sorting.

Local Open Scope string_scope.
Local Open Scope list_scope.
Local Open Scope Z_scope.

(** ** Time *)

Module GoTime.

Definition Time := Z.
Definition Duration := Z.

Definition Nanosecond : Duration := 1.
Definition Millisecond : Duration := 1000000.
Definition Second : Duration := 1000000000.
Definition Minute : Duration := 60 * Second.
Definition Hour : Duration := 60 * Minute.

Definition minInt64 : Z := - 2 ^ 63.
Definition maxInt64 : Z := 2 ^ 63 - 1.

Definition inInt64 (z : Z) : Prop := minInt64 <= z <= maxInt64.

(** Two's complement wrap-around of [int64] arithmetic. *)
Definition wrap64 (z : Z) : Z := (z + 2 ^ 63) mod 2 ^ 64 - 2 ^ 63.

(** [-d] on a [time.Duration]. *)
Definition neg64 (d : Duration) : Duration := wrap64 (- d).

(** [t.Sub(u)]: the difference, saturated to the range of a Duration. *)
Definition Sub (t u : Time) : Duration :=
  if t - u <? minInt64 then minInt64
  else if maxInt64 <? t - u then maxInt64
  else t - u.

(** [t.Add(d)]. *)
Definition Add (t : Time) (d : Duration) : Time := t + d.

Definition Before (t u : Time) : bool := t <? u.
Definition After (t u : Time) : bool := u <? t.
Definition IsZero (t : Time) : bool := t =? 0.

End GoTime.

(** ** Tool action classification (package tools) *)

Module Tools.

Inductive ActionTier :=
| TierRead
| TierServiceMutation
| TierDestructiveMutation
| TierDataMutation.

Record ActionClassification := {
  Tier : ActionTier;
  Blocked : bool;
  BlockReason : string;
  Description : string
}.

(** A Go map literal [map[string]bool{k1: true, ...}]. *)
Definition boolTable (keys : list string) : gmap string bool :=
  list_to_map ((fun k => (k, true)) <$> keys).

(** [m[key]] on a [map[string]bool]: [false] for an absent key. *)
Definition tableGet (m : gmap string bool) (key : string) : bool :=
  default false (m !! key).

Definition awsDestructive : gmap string bool := boolTable [
  "ec2.terminate-instances"; "ec2.delete-security-group"; "ec2.delete-vpc";
  "ec2.delete-subnet"; "rds.delete-db-instance"; "rds.delete-db-cluster";
  "iam.delete-user"; "iam.delete-role"; "iam.delete-policy";
  "iam.put-user-policy"; "iam.attach-role-policy"; "iam.create-access-key";
  "lambda.delete-function"; "ecs.delete-cluster"; "ecs.delete-service";
  "cloudformation.delete-stack" ].

Definition awsDataMutation : gmap string bool := boolTable [
  "s3.rb"; "s3.rm"; "s3api.delete-bucket"; "s3api.delete-object";
  "s3api.delete-objects"; "dynamodb.delete-table"; "dynamodb.delete-item";
  "rds.delete-db-snapshot"; "rds.delete-db-cluster-snapshot" ].

Definition awsServiceMutation : gmap string bool := boolTable [
  "ec2.start-instances"; "ec2.stop-instances"; "ec2.reboot-instances";
  "ec2.create-security-group"; "ec2.authorize-security-group-ingress";
  "ec2.revoke-security-group-ingress"; "ecs.update-service";
  "lambda.update-function-code"; "lambda.update-function-configuration";
  "rds.reboot-db-instance"; "rds.modify-db-instance";
  "autoscaling.set-desired-capacity";
  "autoscaling.update-auto-scaling-group" ].

(** The shared body of [classifyAWSAction] and [classifyAzureAction]:
    data mutation first, then destructive, then service mutation, and
    read for everything else. *)
Definition classifyByTables (cloud : string)
    (dataMutation destructive serviceMutation : gmap string bool)
    (key : string) : ActionClassification :=
  if tableGet dataMutation key then
    {| Tier := TierDataMutation;
       Blocked := true;
       BlockReason := "data mutation blocked: " +:+ key;
       Description := cloud +:+ " " +:+ key +:+ " (data mutation)" |}
  else if tableGet destructive key then
    {| Tier := TierDestructiveMutation;
       Blocked := false;
       BlockReason := "";
       Description := cloud +:+ " " +:+ key +:+ " (destructive)" |}
  else if tableGet serviceMutation key then
    {| Tier := TierServiceMutation;
       Blocked := false;
       BlockReason := "";
       Description := cloud +:+ " " +:+ key +:+ " (service mutation)" |}
  else
    {| Tier := TierRead;
       Blocked := false;
       BlockReason := "";
       Description := cloud +:+ " " +:+ key +:+ " (read)" |}.

Definition classifyAWSAction (service command : string) : ActionClassification :=
  let key := service +:+ "." +:+ command in
  classifyByTables "AWS" awsDataMutation awsDestructive awsServiceMutation key.

Definition azureDestructive : gmap string bool := boolTable [
  "vm.delete"; "group.delete"; "aks.delete"; "network.vnet.delete";
  "network.nsg.delete"; "sql.server.delete"; "sql.db.delete";
  "keyvault.delete"; "ad.sp.delete"; "role.assignment.delete";
  "role.definition.delete"; "functionapp.delete"; "webapp.delete";
  "cosmosdb.delete" ].

Definition azureDataMutation : gmap string bool := boolTable [
  "storage.account.delete"; "storage.blob.delete";
  "storage.container.delete"; "sql.db.delete";
  "cosmosdb.collection.delete"; "cosmosdb.database.delete";
  "keyvault.secret.delete"; "keyvault.key.delete"; "backup.vault.delete" ].

Definition azureServiceMutation : gmap string bool := boolTable [
  "vm.start"; "vm.stop"; "vm.deallocate"; "vm.restart"; "vm.resize";
  "aks.scale"; "aks.upgrade"; "webapp.restart"; "functionapp.restart";
  "network.nsg.rule.create"; "network.nsg.rule.delete";
  "network.nsg.rule.update"; "sql.db.update"; "role.assignment.create";
  "ad.sp.create" ].

Definition classifyAzureAction (group command : string) : ActionClassification :=
  let key := group +:+ "." +:+ command in
  classifyByTables "Azure" azureDataMutation azureDestructive azureServiceMutation key.

(** A key is unknown to a tool when none of its three tables has it. *)
Definition unknownKey (dataMutation destructive serviceMutation : gmap string bool)
    (key : string) : Prop :=
  dataMutation !! key = None /\ destructive !! key = None /\
  serviceMutation !! key = None.


(** Modelled from the spec: [classifySQLQuery] is declared with the SQL tool,
    which is not among the sources (only its tests are).  The spec classifies
    a SQL query "by leading keyword" and makes unknown verbs
    destructive-mutation; the keyword tables are the ones the tests of the
    SQL tool exercise.  The query is trimmed on the left and upper-cased
    before the keywords are compared. *)
Definition isSpace (c : ascii) : bool :=
  bool_decide (c = " "%char) || bool_decide (c = "009"%char) ||
  bool_decide (c = "010"%char) || bool_decide (c = "013"%char).

Fixpoint trimLeft (s : string) : string :=
  match s with
  | String c s' => if isSpace c then trimLeft s' else s
  | EmptyString => EmptyString
  end.

Definition upperAscii (c : ascii) : ascii :=
  let n := nat_of_ascii c in
  if ((97 <=? n) && (n <=? 122))%nat then ascii_of_nat (n - 32) else c.

Fixpoint toUpper (s : string) : string :=
  match s with
  | String c s' => String (upperAscii c) (toUpper s')
  | EmptyString => EmptyString
  end.

Definition hasAnyPrefix (keywords : list string) (s : string) : bool :=
  existsb (fun k => String.prefix k s) keywords.

Definition sqlReadKeywords : list string :=
  ["SELECT"; "SHOW"; "DESCRIBE"; "DESC"; "EXPLAIN"].
Definition sqlDataKeywords : list string :=
  ["INSERT"; "UPDATE"; "DELETE"; "MERGE"; "UPSERT"; "COPY"].
Definition sqlServiceKeywords : list string :=
  ["CREATE INDEX"; "ANALYZE"; "VACUUM"; "GRANT"; "SET"].
Definition sqlDestructiveKeywords : list string :=
  ["DROP"; "TRUNCATE"; "CREATE"; "ALTER"].

Definition classifySQLQuery (query : string) : ActionTier :=
  let q := toUpper (trimLeft query) in
  if hasAnyPrefix sqlReadKeywords q then TierRead
  else if hasAnyPrefix sqlDataKeywords q then TierDataMutation
  else if hasAnyPrefix sqlServiceKeywords q then TierServiceMutation
  else if hasAnyPrefix sqlDestructiveKeywords q then TierDestructiveMutation
  else TierDestructiveMutation.

(** The leading keyword of a query is unknown when no table has it. *)
Definition unknownSQL (query : string) : Prop :=
  hasAnyPrefix (sqlReadKeywords ++ sqlDataKeywords ++ sqlServiceKeywords
                ++ sqlDestructiveKeywords) (toUpper (trimLeft query)) = false.

(** [ToolCapability], as the tools fill it in. *)
Record ToolCapability := {
  Domain : string;
  SupportedTiers : list ActionTier;
  RequiresCredentials : bool
}.

#[global] Instance ActionTier_eq_dec : EqDecision ActionTier.
Proof. solve_decision. Defined.

(** [AWSCLITool.Capability]. *)
Definition AWSCapability : ToolCapability :=
  {| Domain := "aws";
     SupportedTiers := [TierRead; TierServiceMutation; TierDestructiveMutation];
     RequiresCredentials := true |}.

(** [AzureCLITool.Capability]. *)
Definition AzureCapability : ToolCapability :=
  {| Domain := "azure";
     SupportedTiers := [TierRead; TierServiceMutation; TierDestructiveMutation];
     RequiresCredentials := true |}.

End Tools.

(** ** Scheduler (package scheduler) *)

Module Scheduler.
Import GoTime.

(** *** The per-agent concurrency gate (concurrency.go) *)

Record RunInfo := {
  RunName : string;
  StartedAt : Time
}.

Record RunTracker := {
  inflight : gmap string RunInfo
}.

Definition NewRunTracker : RunTracker := {| inflight := ∅ |}.

(** [TryStart]; [now] is the reading of [time.Now()]. *)
Definition TryStart (t : RunTracker) (agentKey runName : string) (now : Time)
    : bool * RunTracker :=
  match inflight t !! agentKey with
  | Some _ => (false, t)
  | None =>
      (true, {| inflight := <[agentKey := {| RunName := runName; StartedAt := now |}]> (inflight t) |})
  end.

Definition Complete (t : RunTracker) (agentKey : string) : RunTracker :=
  {| inflight := delete agentKey (inflight t) |}.

Definition IsRunning (t : RunTracker) (agentKey : string) : bool :=
  match inflight t !! agentKey with Some _ => true | None => false end.

Definition GetRunInfo (t : RunTracker) (agentKey : string) : option RunInfo :=
  inflight t !! agentKey.

Definition InFlightCount (t : RunTracker) : Z :=
  Z.of_nat (size (inflight t)).

(** [CleanStale]: the entries older than [maxAge] are deleted; the count of
    deleted entries is returned. *)
Definition isStale (maxAge : Duration) (now : Time) (info : RunInfo) : bool :=
  maxAge <? Sub now (StartedAt info).

Definition CleanStale (t : RunTracker) (maxAge : Duration) (now : Time)
    : Z * RunTracker :=
  let kept := filter (fun kv => isStale maxAge now kv.2 = false) (inflight t) in
  (Z.of_nat (size (inflight t)) - Z.of_nat (size kept), {| inflight := kept |}).

(** A gate operation, as the scheduler issues them. *)
Inductive GateOp :=
| OpTryStart (agentKey runName : string) (now : Time)
| OpComplete (agentKey : string)
| OpCleanStale (maxAge : Duration) (now : Time).

(** Running a gate operation.  Next to the tracker the list of admitted runs
    [(agentKey, runName)] that are still in flight is kept: a run enters it
    when [TryStart] admits it and leaves it when its key is completed or
    swept. *)
Definition gateStep (st : RunTracker * list (string * string)) (op : GateOp)
    : RunTracker * list (string * string) :=
  match op with
  | OpTryStart k r now =>
      let '(ok, t') := TryStart st.1 k r now in
      (t', if ok then (k, r) :: st.2 else st.2)
  | OpComplete k =>
      (Complete st.1 k, filter (fun p => p.1 ≠ k) st.2)
  | OpCleanStale maxAge now =>
      let '(_, t') := CleanStale st.1 maxAge now in
      (t', filter (fun p => is_Some (inflight t' !! p.1)) st.2)
  end.

Definition gateRun (ops : list GateOp) : RunTracker * list (string * string) :=
  foldl gateStep (NewRunTracker, []) ops.

(** The admitted runs mirror the in-flight map, one run per key. *)
Definition gateInv (st : RunTracker * list (string * string)) : Prop :=
  NoDup (st.2.*1) /\
  forall k r, (k, r) ∈ st.2 <-> RunName <$> (inflight st.1 !! k) = Some r.

(** *** Schedule evaluation (schedule.go) *)

Record ScheduleSpec := {
  Cron : string;
  Interval : string;
  Timezone : string
}.

(** The fields of [InfraAgent] the scheduler reads: [Spec.Paused],
    [Spec.Schedule] and [Status.LastRunTime] (a pointer, [None] for nil). *)
Record InfraAgent := {
  Paused : bool;
  Schedule : ScheduleSpec;
  LastRunTime : option Time
}.

Inductive ScheduleError :=
| ErrInvalidTimezone (tz : string)
| ErrLoadLocation (tz : string)
| ErrInvalidCron (expr : string)
| ErrInvalidInterval (interval : string).

Inductive result (A : Type) :=
| Ok (a : A)
| Err (e : ScheduleError).
Arguments Ok {A} a.
Arguments Err {A} e.

Section Schedule.

(** The library calls of schedule.go: [time.ParseDuration],
    [time.LoadLocation] and the cron parser of robfig/cron with its [Next].
    [None] stands for a returned error. *)
Variable Location : Type.
Variable UTC : Location.
Variable LoadLocation : string -> option Location.
Variable ParseDuration : string -> option Duration.
Variable cronNext : string -> Location -> Time -> option Time.

Definition loadTimezone (tz : string) : option Location :=
  if bool_decide (tz = "") || bool_decide (tz = "UTC") then Some UTC
  else LoadLocation tz.

(** [nextCronRun expr now], [now] carrying the location [loc]. *)
Definition nextCronRun (expr : string) (loc : Location) (now : Time) : result Time :=
  match cronNext expr loc now with
  | Some t => Ok t
  | None => Err (ErrInvalidCron expr)
  end.

Definition nextIntervalRun (interval : string) (agent : InfraAgent) (now : Time)
    : result Time :=
  match ParseDuration interval with
  | None => Err (ErrInvalidInterval interval)
  | Some dur =>
      match LastRunTime agent with
      | None => Ok now
      | Some last => Ok (Add last dur)
      end
  end.

Definition NextRun (agent : InfraAgent) (now : Time) : result Time :=
  if Paused agent then Ok 0
  else
    let spec := Schedule agent in
    match loadTimezone (Timezone spec) with
    | None => Err (ErrInvalidTimezone (Timezone spec))
    | Some loc =>
        if negb (bool_decide (Cron spec = "")) then nextCronRun (Cron spec) loc now
        else if negb (bool_decide (Interval spec = "")) then
          nextIntervalRun (Interval spec) agent now
        else Ok 0
    end.

Definition nextRunAfter (agent : InfraAgent) (after : Time) : result Time :=
  let spec := Schedule agent in
  match loadTimezone (Timezone spec) with
  | None => Err (ErrLoadLocation (Timezone spec))
  | Some loc =>
      if negb (bool_decide (Cron spec = "")) then nextCronRun (Cron spec) loc after
      else if negb (bool_decide (Interval spec = "")) then
        match ParseDuration (Interval spec) with
        | None => Err (ErrInvalidInterval (Interval spec))
        | Some dur => Ok (Add after dur)
        end
      else Ok 0
  end.

Definition IsDue (agent : InfraAgent) (now : Time) : result bool :=
  if Paused agent then Ok false
  else if bool_decide (Cron (Schedule agent) = "")
          && bool_decide (Interval (Schedule agent) = "") then Ok false
  else
    match LastRunTime agent with
    | None => Ok true
    | Some lastRun =>
        match nextRunAfter agent lastRun with
        | Err e => Err e
        | Ok nextAfterLast => Ok (negb (IsZero nextAfterLast) && After now nextAfterLast)
        end
    end.

End Schedule.

(** *** Jitter (schedule.go) *)

(** [float64(i)] for an [int64]. *)
Definition float64_of_int64 (i : Z) : float :=
  if i =? minInt64 then PrimFloat.opp (PrimFloat.mul (PrimFloat.of_uint63 (Uint63.of_Z (2 ^ 62))) 2%float)
  else if i <? 0 then PrimFloat.opp (PrimFloat.of_uint63 (Uint63.of_Z (- i)))
  else PrimFloat.of_uint63 (Uint63.of_Z i).

(** [int64(f)] for a [float64]: the fraction is discarded.  Go leaves the
    result open when the value does not fit; the amd64 result, the least
    [int64], is taken here. *)
Definition int64_of_float64 (f : float) : Z :=
  match Prim2SF f with
  | S754_zero _ => 0
  | S754_finite s m e =>
      let mag := if 0 <=? e then Z.shiftl (Z.pos m) e else Z.shiftr (Z.pos m) (- e) in
      let v := if s then - mag else mag in
      if (minInt64 <=? v) && (v <=? maxInt64) then v else minInt64
  | _ => minInt64
  end.

Definition effectivePercent (jitterPercent : float) : float :=
  if PrimFloat.leb jitterPercent 0%float then 10%float else jitterPercent.

(** [time.Duration(float64(interval) * jitterPercent / 100.0)]. *)
Definition scaleDuration (interval : Duration) (jitterPercent : float) : Duration :=
  int64_of_float64
    (PrimFloat.div (PrimFloat.mul (float64_of_int64 interval) jitterPercent) 100%float).

(** [maxJitter] after the 30s cap. *)
Definition maxJitterOf (interval : Duration) (jitterPercent : float) : Duration :=
  let maxJitter := scaleDuration interval (effectivePercent jitterPercent) in
  if 30 * Second <? maxJitter then 30 * Second else maxJitter.

(** [ApplyJitter]; [Int63n] is the random source: [Int63n n] is what
    [rand.Int63n(n)] returns at this call. *)
Definition ApplyJitter (scheduled : Time) (interval : Duration)
    (jitterPercent : float) (Int63n : Z -> Z) : Time :=
  let maxJitter := maxJitterOf interval jitterPercent in
  if maxJitter <? 100 * Millisecond then scheduled
  else
    let offset := Int63n maxJitter - Z.quot maxJitter 2 in
    Add scheduled offset.

(** *** Debouncer (webhook.go) *)

Record Debouncer := {
  window : Duration;
  last : gmap string Time
}.

Definition NewDebouncer (w : Duration) : Debouncer :=
  {| window := if w <=? 0 then 30 * Second else w; last := ∅ |}.

(** [ShouldFire]; [now] is the reading of [time.Now()]. *)
Definition ShouldFire (d : Debouncer) (key : string) (now : Time) : bool * Debouncer :=
  match last d !! key with
  | Some l =>
      if Sub now l <? window d then (false, d)
      else (true, {| window := window d; last := <[key := now]> (last d) |})
  | None => (true, {| window := window d; last := <[key := now]> (last d) |})
  end.

Definition Reset (d : Debouncer) : Debouncer :=
  {| window := window d; last := ∅ |}.

Definition Clean (d : Debouncer) (now : Time) : Debouncer :=
  let threshold := Add now (wrap64 (-2 * window d)) in
  {| window := window d;
     last := filter (fun kv => Before kv.2 threshold = false) (last d) |}.

(** Calling [ShouldFire] for one key at each of the readings [times]. *)
Fixpoint fireAll (d : Debouncer) (key : string) (times : list Time)
    : list bool * Debouncer :=
  match times with
  | [] => ([], d)
  | now :: rest =>
      let '(b, d1) := ShouldFire d key now in
      let '(bs, d2) := fireAll d1 key rest in
      (b :: bs, d2)
  end.

(** *** Webhook handler (webhook.go) *)

Record NamespacedName := {
  Namespace : string;
  Name : string
}.

#[global] Instance NamespacedName_eq_dec : EqDecision NamespacedName.
Proof. solve_decision. Defined.

Record WebhookTrigger := {
  AgentKey : NamespacedName;
  Source : string;
  Payload : string;
  TriggerTime : Time
}.

(** The handler: its debouncer, the content of the buffered [triggers]
    channel (oldest first) and the source-to-agents map.  The logger is not
    modelled. *)
Record WebhookHandler := {
  debouncer : Debouncer;
  triggers : list WebhookTrigger;
  agentMap : gmap string (list NamespacedName)
}.

Definition triggersCapacity : nat := 100.

Definition NewWebhookHandler (debounceWindow : Duration) : WebhookHandler :=
  {| debouncer := NewDebouncer debounceWindow; triggers := []; agentMap := ∅ |}.

Definition RegisterAgent (h : WebhookHandler) (source : string) (agentKey : NamespacedName)
    : WebhookHandler :=
  {| debouncer := debouncer h;
     triggers := triggers h;
     agentMap := <[source := (default [] (agentMap h !! source) ++ [agentKey])%list]> (agentMap h) |}.

Definition UnregisterAgent (h : WebhookHandler) (agentKey : NamespacedName)
    : WebhookHandler :=
  {| debouncer := debouncer h;
     triggers := triggers h;
     agentMap :=
       omap (fun agents =>
               match filter (fun a => a ≠ agentKey) agents with
               | [] => None
               | filtered => Some filtered
               end) (agentMap h) |}.

(** The request as the handler reads it: method, URL path, and the body
    stream, which delivers [sent] and then ends, with a read error when
    [broken]. *)
Record Request := {
  Method : string;
  Path : string;
  sent : string;
  broken : bool
}.

Record Response := {
  Code : Z;
  Body : string
}.

Definition StatusAccepted : Z := 202.
Definition StatusBadRequest : Z := 400.
Definition StatusMethodNotAllowed : Z := 405.

Definition bodyLimit : nat := 1024 * 1024.

(** [io.ReadAll(io.LimitReader(r.Body, 1024*1024))]: the limit is reached
    before the end of a long stream is looked at. *)
Definition readBody (r : Request) : option string :=
  if (bodyLimit <=? String.length (sent r))%nat then Some (substring 0 bodyLimit (sent r))
  else if broken r then None
  else Some (sent r).

(** [http.Error(w, msg, code)]. *)
Definition httpError (msg : string) (code : Z) : Response :=
  {| Code := code; Body := msg +:+ String "010"%char "" |}.

Definition extractSource (path : string) : string :=
  let pfx := "/webhook/" in
  if negb (String.prefix pfx path) then ""
  else substring (String.length pfx) (String.length path - String.length pfx) path.

Definition decimal (n : nat) : string := pretty (Z.of_nat n).

(** The loop of [ServeHTTP] over the agents of the source.  [clock k] is the
    [k]-th reading of [time.Now()] during the call; the state carries the
    debouncer, the channel, the count of triggers sent and the count of
    clock readings. *)
Definition triggerAgent (source body : string) (clock : nat -> Time)
    (st : Debouncer * list WebhookTrigger * nat * nat) (agentKey : NamespacedName)
    : Debouncer * list WebhookTrigger * nat * nat :=
  let '(d, chan, triggered, k) := st in
  let debounceKey := source +:+ "/" +:+ Namespace agentKey +:+ "/" +:+ Name agentKey in
  let '(fire, d') := ShouldFire d debounceKey (clock k) in
  if fire then
    if (length chan <? triggersCapacity)%nat then
      (d', (chan ++ [{| AgentKey := agentKey; Source := source; Payload := body;
                        TriggerTime := clock (S k) |}])%list, S triggered, S (S k))
    else (d', chan, triggered, S (S k))
  else (d', chan, triggered, S k).

(** The body [json.NewEncoder(w).Encode(resp)] writes for the map with the
    keys status, agents and triggered: the keys in sorted order, and a
    newline at the end. *)
Definition acceptedBody (agents triggered : nat) : string :=
  "{" +:+ String "034"%char "agents" +:+ String "034"%char ":"
  +:+ decimal agents +:+ ","
  +:+ String "034"%char "status" +:+ String "034"%char ":"
  +:+ String "034"%char "accepted" +:+ String "034"%char ","
  +:+ String "034"%char "triggered" +:+ String "034"%char ":"
  +:+ decimal triggered +:+ "}" +:+ String "010"%char "".

(** The part of [ServeHTTP] after the lookup found agents: every agent is
    tried, then 202 is answered with the counts. *)
Definition triggerAll (h : WebhookHandler) (source body : string) (clock : nat -> Time)
    (agents : list NamespacedName) : WebhookHandler * Response :=
  let '(d, chan, triggered, _) :=
    foldl (triggerAgent source body clock)
          (debouncer h, triggers h, 0%nat, 0%nat) agents in
  ({| debouncer := d; triggers := chan; agentMap := agentMap h |},
   {| Code := StatusAccepted; Body := acceptedBody (length agents) triggered |}).

(** The body written when no agent is registered for the source: the
    object with status accepted and agents 0, as the source spells it. *)
Definition noAgentsBody : string :=
  "{" +:+ String "034"%char "status" +:+ String "034"%char ":"
  +:+ String "034"%char "accepted" +:+ String "034"%char ","
  +:+ String "034"%char "agents" +:+ String "034"%char ":0}".

Definition ServeHTTP (h : WebhookHandler) (r : Request) (clock : nat -> Time)
    : WebhookHandler * Response :=
  if negb (bool_decide (Method r = "POST")) then
    (h, httpError "method not allowed" StatusMethodNotAllowed)
  else
    let source := extractSource (Path r) in
    if bool_decide (source = "") then
      (h, httpError "missing source in path" StatusBadRequest)
    else
      match readBody r with
      | None => (h, httpError "failed to read body" StatusBadRequest)
      | Some body =>
          match agentMap h !! source with
          | None | Some [] =>
              (h, {| Code := StatusAccepted; Body := noAgentsBody |})
          | Some agents => triggerAll h source body clock agents
          end
      end.

(** *** The effective interval (schedule.go) *)

Section EffectiveInterval.

(** [Local] is the location of the [time.Now()] reading; the time
    [sched.Next] returns stays in the location of its argument. *)
Variable Location : Type.
Variable Local : Location.
Variable ParseDuration : string -> option Duration.
Variable cronNext : string -> Location -> Time -> option Time.

(** [ComputeInterval]; [now] is the reading of [time.Now()], taken only
    when the cron branch is reached. *)
Definition ComputeInterval (agent : InfraAgent) (now : Time) : Duration :=
  let spec := Schedule agent in
  let fromCron :=
    if negb (bool_decide (Cron spec = "")) then
      match nextCronRun Location cronNext (Cron spec) Local now with
      | Ok next1 =>
          match nextCronRun Location cronNext (Cron spec) Local next1 with
          | Ok next2 => Sub next2 next1
          | Err _ => 5 * Minute
          end
      | Err _ => 5 * Minute
      end
    else 5 * Minute in
  if negb (bool_decide (Interval spec = "")) then
    match ParseDuration (Interval spec) with
    | Some dur => dur
    | None => fromCron
    end
  else fromCron.

End EffectiveInterval.

End Scheduler.

(** ** Retention sweeper (package retention) *)

Module Retention.
Import GoTime.

Definition RunPhase := string.

(** Modelled from the spec: the phase constants of [corev1alpha1.RunPhase]
    are declared in api/v1alpha1, which is not among the sources; the spec
    lists the phases Pending, Running, Succeeded, Failed, Escalated and
    Blocked. *)
Definition RunPhasePending : RunPhase := "Pending".
Definition RunPhaseRunning : RunPhase := "Running".
Definition RunPhaseSucceeded : RunPhase := "Succeeded".
Definition RunPhaseFailed : RunPhase := "Failed".
Definition RunPhaseEscalated : RunPhase := "Escalated".
Definition RunPhaseBlocked : RunPhase := "Blocked".

(** The fields of an [AgentRun] the sweeper reads. *)
Record AgentRun := {
  Name : string;
  Namespace : string;
  AgentRef : string;
  Phase : RunPhase;
  CreationTimestamp : Time;
  CompletionTime : option Time
}.

#[global] Instance AgentRun_eq_dec : EqDecision AgentRun.
Proof. solve_decision. Defined.

Record Config := {
  TTL : Duration;
  ScanInterval : Duration;
  MaxDeleteBatch : Z;
  PreserveMinPerAgent : Z
}.

Definition DefaultConfig : Config :=
  {| TTL := 7 * 24 * Hour;
     ScanInterval := 1 * Hour;
     MaxDeleteBatch := 100;
     PreserveMinPerAgent := 5 |}.

Record ScanResult := {
  Scanned : Z;
  Eligible : Z;
  Deleted : Z;
  Errors : Z
}.

Definition isTerminal (phase : RunPhase) : bool :=
  bool_decide (phase = RunPhaseSucceeded) || bool_decide (phase = RunPhaseFailed)
  || bool_decide (phase = RunPhaseEscalated) || bool_decide (phase = RunPhaseBlocked).

(** The object store behind [client.Client], as far as the sweeper uses it:
    the stored runs, addressed by (namespace, name), and the faults of the
    two calls.  [List] fails when [listFails]; [Delete] of a run fails when
    [deleteFails] says so, and removes the run otherwise. *)
Record Cluster := {
  objects : list AgentRun;
  listFails : bool;
  deleteFails : AgentRun -> bool
}.

Definition objectKey (r : AgentRun) : string * string := (Namespace r, Name r).

Definition clientList (c : Cluster) : option (list AgentRun) :=
  if listFails c then None else Some (objects c).

Definition clientDelete (c : Cluster) (run : AgentRun) : Cluster * bool :=
  if deleteFails c run then (c, false)
  else if bool_decide (objectKey run ∈ objectKey <$> objects c) then
    ({| objects := filter (fun r => objectKey r ≠ objectKey run) (objects c);
        listFails := listFails c;
        deleteFails := deleteFails c |}, true)
  else (c, false).

Definition agentKeyOf (run : AgentRun) : string :=
  Namespace run +:+ "/" +:+ AgentRef run.

(** The grouping loop: each run is appended to the slice of its agent. *)
Definition groupByAgent (items : list AgentRun) : gmap string (list AgentRun) :=
  foldl (fun byAgent run =>
           <[agentKeyOf run := (default [] (byAgent !! agentKeyOf run) ++ [run])%list]> byAgent)
        ∅ items.

(** The comparison handed to [sort.Slice]: newest first. *)
Definition newerThan (a b : AgentRun) : bool :=
  After (CreationTimestamp a) (CreationTimestamp b).

Definition completionOrCreation (run : AgentRun) : Time :=
  match CompletionTime run with
  | Some t => t
  | None => CreationTimestamp run
  end.

(** [cutoff := now.Add(-c.config.TTL)]. *)
Definition cutoffOf (cfg : Config) (now : Time) : Time :=
  Add now (neg64 (TTL cfg)).

(** The inner loop over one sorted group; [i] is the index of the head. *)
Fixpoint eligibleFrom (cfg : Config) (cutoff : Time) (i : nat) (runs : list AgentRun)
    : list AgentRun :=
  match runs with
  | [] => []
  | run :: rest =>
      let tail := eligibleFrom cfg cutoff (S i) rest in
      if negb (isTerminal (Phase run)) then tail
      else if Z.of_nat i <? PreserveMinPerAgent cfg then tail
      else if Before (completionOrCreation run) cutoff then run :: tail
      else tail
  end.

(** The delete loop: every run is tried, errors are counted. *)
Fixpoint deleteAll (c : Cluster) (toDelete : list AgentRun) (deleted errors : Z)
    : Cluster * Z * Z :=
  match toDelete with
  | [] => (c, deleted, errors)
  | run :: rest =>
      let '(c', ok) := clientDelete c run in
      if ok then deleteAll c' rest (deleted + 1) errors
      else deleteAll c' rest deleted (errors + 1)
  end.

(** How a scan ends: it returns, or the slice expression
    [toDelete[:MaxDeleteBatch]] panics on a negative bound.  A returned scan
    carries, next to the result and the store, the runs whose deletion was
    attempted. *)
Inductive ScanOutcome :=
| Returned (result : ScanResult) (c : Cluster) (attempted : list AgentRun)
| Panicked.

Section Scan.

(** [sort.Slice] is not stable and the iteration order of a Go map is not
    fixed: both are taken as they come. *)
Variable sortSlice : (AgentRun -> AgentRun -> bool) -> list AgentRun -> list AgentRun.
Variable rangeMap : gmap string (list AgentRun) -> list (string * list AgentRun).

Definition sortedGroups (items : list AgentRun) : list (string * list AgentRun) :=
  rangeMap (sortSlice newerThan <$> groupByAgent items).

Definition selectEligible (cfg : Config) (cutoff : Time) (items : list AgentRun)
    : list AgentRun :=
  concat ((fun g => eligibleFrom cfg cutoff 0 g.2) <$> sortedGroups items).

Definition doScan (cfg : Config) (c : Cluster) (now : Time) : ScanOutcome :=
  match clientList c with
  | None => Returned {| Scanned := 0; Eligible := 0; Deleted := 0; Errors := 1 |} c []
  | Some items =>
      let cutoff := cutoffOf cfg now in
      let toDelete := selectEligible cfg cutoff items in
      let eligible := Z.of_nat (length toDelete) in
      if MaxDeleteBatch cfg <? eligible then
        if MaxDeleteBatch cfg <? 0 then Panicked
        else
          let batch := take (Z.to_nat (MaxDeleteBatch cfg)) toDelete in
          let '(c', deleted, errors) := deleteAll c batch 0 0 in
          Returned {| Scanned := Z.of_nat (length items); Eligible := eligible;
                      Deleted := deleted; Errors := errors |} c' batch
      else
        let '(c', deleted, errors) := deleteAll c toDelete 0 0 in
        Returned {| Scanned := Z.of_nat (length items); Eligible := eligible;
                    Deleted := deleted; Errors := errors |} c' toDelete
  end.

End Scan.

(** The runs of one agent among [items], in the order of the listing. *)
Definition groupOf (items : list AgentRun) (key : string) : list AgentRun :=
  filter (fun r => agentKeyOf r = key) items.

(** What [sort.Slice] leaves with the comparison [newerThan]: no run is
    newer than a run before it. *)
Definition notNewer (a b : AgentRun) : Prop := newerThan b a = false.

Definition newestFirst (runs : list AgentRun) : Prop :=
  StronglySorted notNewer runs.

(** The number of stored runs of one agent. *)
Definition countFor (key : string) (runs : list AgentRun) : Z :=
  Z.of_nat (length (groupOf runs key)).

(** An instance of the two library behaviours: merge sort, and the groups
    in the order of the keys. *)
Definition mergeSortSlice (less : AgentRun -> AgentRun -> bool) (l : list AgentRun)
    : list AgentRun :=
  @merge_sort AgentRun (fun a b => less b a = false)
              (fun a b => decide (less b a = false)) l.

Definition keyOrder (m : gmap string (list AgentRun)) : list (string * list AgentRun) :=
  map_to_list m.

(** A store in the shape of the deletion test of the sweeper. *)
Definition day : Duration := 24 * Hour.

Definition makeRun (name agent : string) (phase : RunPhase) (ageDays : Z) : AgentRun :=
  {| Name := name; Namespace := "default"; AgentRef := agent; Phase := phase;
     CreationTimestamp := 100 * day - ageDays * day;
     CompletionTime := Some (100 * day - ageDays * day) |}.

Definition sampleCluster : Cluster :=
  {| objects := [ makeRun "run-recent" "watchman" RunPhaseSucceeded 0;
                  makeRun "run-old-1" "watchman" RunPhaseSucceeded 8;
                  makeRun "run-old-2" "watchman" RunPhaseFailed 10;
                  makeRun "run-old-3" "watchman" RunPhaseSucceeded 12;
                  makeRun "run-old-4" "watchman" RunPhaseRunning 14;
                  makeRun "run-old-5" "watchman" RunPhaseEscalated 16;
                  makeRun "run-old-6" "watchman" RunPhaseBlocked 20 ];
     listFails := false;
     deleteFails := fun r => bool_decide (Name r = "run-old-5") |}.

Definition sampleConfig : Config :=
  {| TTL := 7 * day; ScanInterval := Hour; MaxDeleteBatch := 100;
     PreserveMinPerAgent := 3 |}.

End Retention.

(** ** Drain coordinator (package lifecycle) *)

Module Lifecycle.
Import GoTime.

(** A registered [context.CancelFunc] is the cancel function of a run
    context; the context is named by a number, and calling the function
    puts the number in the set of cancelled contexts. *)
Definition CtxId := nat.

Record ShutdownManager := {
  drainTimeout : Duration;
  cancels : gmap string CtxId
}.

(** The manager together with the contexts cancelled so far. *)
Record World := {
  manager : ShutdownManager;
  cancelled : gset CtxId
}.

Definition NewShutdownManager (timeout : Duration) : ShutdownManager :=
  {| drainTimeout := timeout; cancels := ∅ |}.

Definition RegisterRun (s : ShutdownManager) (key : string) (cancel : CtxId)
    : ShutdownManager :=
  {| drainTimeout := drainTimeout s; cancels := <[key := cancel]> (cancels s) |}.

Definition DeregisterRun (s : ShutdownManager) (key : string) : ShutdownManager :=
  {| drainTimeout := drainTimeout s; cancels := delete key (cancels s) |}.

Definition ActiveRuns (s : ShutdownManager) : Z := Z.of_nat (size (cancels s)).

(** [cancelAll]: every registered cancel function is called, then the map is
    replaced by an empty one. *)
Definition cancelAll (w : World) : World :=
  {| manager := {| drainTimeout := drainTimeout (manager w); cancels := ∅ |};
     cancelled :=
       map_fold (fun _ ctx acc => {[ctx]} ∪ acc) (cancelled w) (cancels (manager w)) |}.

(** What happens while [WaitForDrain] sits in its [select]: the deadline
    channel or the 500ms ticker delivers, and the tracker then reports
    [count] in flight; or, meanwhile, a runner registers or deregisters a
    run. *)
Inductive DrainEvent :=
| EvDeadline (count : Z)
| EvTick (count : Z)
| EvRegister (key : string) (cancel : CtxId)
| EvDeregister (key : string).

Definition tickPeriod : Duration := 500 * Millisecond.

(** The [for { select { ... } }] loop. [None]: the events ran out while the
    loop was still waiting. *)
Fixpoint drainLoop (w : World) (events : list DrainEvent) : option (Z * World) :=
  match events with
  | [] => None
  | EvDeadline remaining :: _ =>
      if 0 <? remaining then Some (remaining, cancelAll w)
      else Some (0, w)
  | EvTick count :: rest =>
      if count =? 0 then Some (0, w)
      else drainLoop w rest
  | EvRegister key cancel :: rest =>
      drainLoop {| manager := RegisterRun (manager w) key cancel;
                   cancelled := cancelled w |} rest
  | EvDeregister key :: rest =>
      drainLoop {| manager := DeregisterRun (manager w) key;
                   cancelled := cancelled w |} rest
  end.

(** [WaitForDrain]; [inflight] is the first reading of the tracker. *)
Definition WaitForDrain (w : World) (inflight : Z) (events : list DrainEvent)
    : option (Z * World) :=
  if inflight =? 0 then Some (0, w)
  else drainLoop w events.

(** The registrations the runners make among [events]. *)
Definition applyEnv (w : World) (events : list DrainEvent) : World :=
  foldl (fun w ev =>
           match ev with
           | EvRegister key cancel =>
               {| manager := RegisterRun (manager w) key cancel; cancelled := cancelled w |}
           | EvDeregister key =>
               {| manager := DeregisterRun (manager w) key; cancelled := cancelled w |}
           | _ => w
           end) w events.

(** The event ends the wait. *)
Definition endsWait (ev : DrainEvent) : bool :=
  match ev with
  | EvDeadline _ => true
  | EvTick count => count =? 0
  | _ => false
  end.

(** The tracker's reading carried by an event, if any. *)
Definition countOf (ev : DrainEvent) : option Z :=
  match ev with
  | EvDeadline c | EvTick c => Some c
  | _ => None
  end.

End Lifecycle.

(** ** Credential manager (package vault) *)

Module Vault.

(** The byte arrays of the process that hold key material, by address: the
    arrays behind the [ed25519.PrivateKey] slices, which the manager tracks
    and [Cleanup] writes to, and the buffers that [pem.EncodeToMemory]
    returns.  A Go string is a value of its own: writing to an array does
    not change a string made from it. *)
Definition Heap := gmap nat (list Byte.byte).

Record CredentialManager := {
  leases : list string;
  sshKeys : list nat
}.

Definition NewCredentialManager : CredentialManager :=
  {| leases := []; sshKeys := [] |}.

Inductive VaultError :=
| PostFailed (cause : string)
| RevokeFailed (leaseID : string) (cause : VaultError)
| CleanupRevoke (leaseID : string) (cause : VaultError).

Section Client.

(** The Vault server behind [Client.doPost]: posting a revocation changes
    the server and may fail. *)
Variable Server : Type.
Variable postRevoke : Server -> string -> Server * option string.

(** The server with the log of the revocation requests sent to it, each
    with the error it came back with, if any. *)
Record Remote := {
  server : Server;
  revokeLog : list (string * option string)
}.

(** [Client.RevokeLease]. *)
Definition RevokeLease (r : Remote) (leaseID : string) : Remote * option VaultError :=
  if bool_decide (leaseID = "") then (r, None)
  else
    let '(sv, err) := postRevoke (server r) leaseID in
    let r' := {| server := sv; revokeLog := revokeLog r ++ [(leaseID, err)] |} in
    match err with
    | Some cause => (r', Some (RevokeFailed leaseID (PostFailed cause)))
    | None => (r', None)
    end.

(** The tracking part of [RequestDBCredentials]; [creds] is what
    [GetDatabaseCredentials] returned, [None] for an error. *)
Definition RequestDBCredentials (m : CredentialManager) (creds : option string)
    : CredentialManager :=
  match creds with
  | None => m
  | Some leaseID =>
      if negb (bool_decide (leaseID = "")) then
        {| leases := (leases m ++ [leaseID])%list; sshKeys := sshKeys m |}
      else m
  end.

(** The first loop of [Cleanup]. *)
Fixpoint revokeAll (r : Remote) (ids : list string) (errs : list VaultError)
    : Remote * list VaultError :=
  match ids with
  | [] => (r, errs)
  | leaseID :: rest =>
      match RevokeLease r leaseID with
      | (r', Some err) => revokeAll r' rest (errs ++ [CleanupRevoke leaseID err])%list
      | (r', None) => revokeAll r' rest errs
      end
  end.

Definition zeroed (bytes : list Byte.byte) : list Byte.byte :=
  replicate (length bytes) Byte.x00.

(** The second loop of [Cleanup]: [m.sshKeys[i][j] = 0] for every [j]. *)
Definition zeroKey (h : Heap) (addr : nat) : Heap :=
  match h !! addr with
  | Some bytes => <[addr := zeroed bytes]> h
  | None => h
  end.

(** The error [Cleanup] collects for a logged revocation, if it failed. *)
Definition cleanupError (entry : string * option string) : option VaultError :=
  match entry.2 with
  | Some cause => Some (CleanupRevoke entry.1 (RevokeFailed entry.1 (PostFailed cause)))
  | None => None
  end.

Definition Cleanup (m : CredentialManager) (r : Remote) (h : Heap)
    : list VaultError * CredentialManager * Remote * Heap :=
  let '(r', errs) := revokeAll r (leases m) [] in
  let h' := foldl zeroKey h (sshKeys m) in
  (errs, {| leases := []; sshKeys := [] |}, r', h').

Definition ActiveLeaseCount (m : CredentialManager) : Z :=
  Z.of_nat (length (leases m)).

End Client.

(** [SSHCredentials]: the private key in PEM, as the bytes of the string,
    the signed certificate and the user. *)
Record SSHCredentials := {
  PrivateKey : list Byte.byte;
  Certificate : string;
  User : string
}.

Inductive SSHRequestError :=
| GenerateKeyFailed
| ConvertPublicKeyFailed
| SignFailed.

Section KeyMaterial.

(** [pem.EncodeToMemory] of the block of type OPENSSH PRIVATE KEY over the
    bytes of the key ([marshalED25519PrivateKey] is the conversion
    [[]byte(key)]: the same bytes). *)
Variable pemEncode : list Byte.byte -> list Byte.byte.

(** [RequestSSHCredentials].  [generated] is the private key
    [ed25519.GenerateKey] returned, [converted] says whether
    [ssh.NewPublicKey] succeeded and [signedKey] is the certificate
    [Client.SignSSHKey] returned, [None] standing for an error; [user] is
    [req.User].  The generated key is a new array.  When the signing
    succeeded the key is tracked, its PEM encoding is written to a new
    buffer, and the credentials carry a string made from that buffer. *)
Definition RequestSSHCredentials (m : CredentialManager) (h : Heap)
    (generated : option (list Byte.byte)) (converted : bool)
    (signedKey : option string) (user : string)
    : (SSHRequestError + SSHCredentials) * CredentialManager * Heap :=
  match generated with
  | None => (inl GenerateKeyFailed, m, h)
  | Some privKey =>
      let keyAddr := fresh (dom h) in
      let h1 := <[keyAddr := privKey]> h in
      if negb converted then (inl ConvertPublicKeyFailed, m, h1)
      else
        match signedKey with
        | None => (inl SignFailed, m, h1)
        | Some cert =>
            let m' := {| leases := leases m; sshKeys := (sshKeys m ++ [keyAddr])%list |} in
            let privKeyPEM := pemEncode privKey in
            let pemAddr := fresh (dom h1) in
            let h2 := <[pemAddr := privKeyPEM]> h1 in
            (inr {| PrivateKey := privKeyPEM; Certificate := cert; User := user |},
             m', h2)
        end
  end.

End KeyMaterial.

(** [truncate] of the HTTP helpers (a string is its bytes).  [None]: the
    slice expression [s[:max]] panics, which it does on a negative [max]. *)
Definition truncate (s : string) (max : Z) : option string :=
  if Z.of_nat (String.length s) <=? max then Some s
  else if max <? 0 then None
  else Some (substring 0 (Z.to_nat max) s +:+ "...").

End Vault.

(** ** Approval manager (package approval) *)

Module Approval.

(** [ApprovalRequestPhase] and its constants (api/v1alpha1). *)
Definition ApprovalRequestPhase := string.
Definition ApprovalPhasePending : ApprovalRequestPhase := "Pending".
Definition ApprovalPhaseApproved : ApprovalRequestPhase := "Approved".
Definition ApprovalPhaseDenied : ApprovalRequestPhase := "Denied".
Definition ApprovalPhaseExpired : ApprovalRequestPhase := "Expired".

(** [ApprovalRequestStatus] without its timestamp. *)
Record ApprovalRequestStatus := {
  Phase : ApprovalRequestPhase;
  DecidedBy : string;
  Reason : string
}.

(** The stored record of one request, with the writes the manager made to
    it, oldest first. *)
Record Store := {
  status : ApprovalRequestStatus;
  managerWrites : list ApprovalRequestStatus
}.

Record ApprovalResult := {
  Approved : bool;
  ResultPhase : ApprovalRequestPhase;
  ResultDecidedBy : string;
  ResultReason : string
}.

(** What happens while the manager waits: a poll of the record comes due,
    the manager's timeout elapses, the caller's context is cancelled, or an
    outside actor (a human, through the API) updates the status. *)
Inductive WaitEvent :=
| EvPoll
| EvTimeout
| EvCancelled
| EvExternal (st : ApprovalRequestStatus).

Definition pendingStatus : ApprovalRequestStatus :=
  {| Phase := ApprovalPhasePending; DecidedBy := ""; Reason := "" |}.

Definition expiredStatus : ApprovalRequestStatus :=
  {| Phase := ApprovalPhaseExpired; DecidedBy := "system"; Reason := "" |}.

Definition managerWrite (s : Store) (st : ApprovalRequestStatus) : Store :=
  {| status := st; managerWrites := (managerWrites s ++ [st])%list |}.

(** Modelled from the spec: [Manager.RequestApproval] is not among the
    sources (only its tests and the record type are).  Section 4.4 of the
    spec: the record is polled until it is Approved (return Approved with
    the decider identity) or Denied (return Denied); when the timeout
    elapses the manager writes phase Expired with decider system and returns
    Expired; when the caller context is cancelled it returns Expired without
    further writes.  The test of the cancelled context expects an error next
    to the Expired result, which is the boolean of the outcome.  [None]: the
    events ran out while the manager was still waiting. *)
Fixpoint waitForDecision (s : Store) (events : list WaitEvent)
    : option (ApprovalResult * bool * Store) :=
  match events with
  | [] => None
  | EvExternal st :: rest =>
      waitForDecision {| status := st; managerWrites := managerWrites s |} rest
  | EvPoll :: rest =>
      if bool_decide (Phase (status s) = ApprovalPhaseApproved) then
        Some ({| Approved := true; ResultPhase := ApprovalPhaseApproved;
                 ResultDecidedBy := DecidedBy (status s);
                 ResultReason := Reason (status s) |}, false, s)
      else if bool_decide (Phase (status s) = ApprovalPhaseDenied) then
        Some ({| Approved := false; ResultPhase := ApprovalPhaseDenied;
                 ResultDecidedBy := DecidedBy (status s);
                 ResultReason := Reason (status s) |}, false, s)
      else waitForDecision s rest
  | EvTimeout :: _ =>
      Some ({| Approved := false; ResultPhase := ApprovalPhaseExpired;
               ResultDecidedBy := "system"; ResultReason := "" |}, false,
            managerWrite s expiredStatus)
  | EvCancelled :: _ =>
      Some ({| Approved := false; ResultPhase := ApprovalPhaseExpired;
               ResultDecidedBy := ""; ResultReason := "" |}, true, s)
  end.

(** Modelled from the spec: the record is created with phase Pending, then
    the wait begins. *)
Definition RequestApproval (events : list WaitEvent)
    : option (ApprovalResult * bool * Store) :=
  waitForDecision (managerWrite {| status := pendingStatus; managerWrites := [] |}
                                pendingStatus) events.

(** The event ends the wait when the record is in status [st]. *)
Definition decided (st : ApprovalRequestStatus) : bool :=
  bool_decide (Phase st = ApprovalPhaseApproved)
  || bool_decide (Phase st = ApprovalPhaseDenied).

(** The status an outside actor left last among [events], [st] if none. *)
Definition externalStatus (st : ApprovalRequestStatus) (events : list WaitEvent)
    : ApprovalRequestStatus :=
  foldl (fun acc ev => match ev with EvExternal st' => st' | _ => acc end) st events.

(** No event of [events] ends the wait that starts in status [st]: there is
    no timeout and no cancellation among them, and no poll finds a
    decision. *)
Fixpoint stillWaiting (st : ApprovalRequestStatus) (events : list WaitEvent) : bool :=
  match events with
  | [] => true
  | EvExternal st' :: rest => stillWaiting st' rest
  | EvPoll :: rest => negb (decided st) && stillWaiting st rest
  | EvTimeout :: _ => false
  | EvCancelled :: _ => false
  end.

End Approval.

(** ** Skill references (package skills) *)

Module Skills.

Record OCIRef := {
  Registry : string;
  Path : string;
  Tag : string;
  Digest : string
}.

Inductive ParseError :=
| ErrEmptyReference
| ErrNeedRegistryAndName.

(** The library calls of [ParseOCIRef] on strings, a string being its
    bytes: [strings.TrimPrefix], the slice expressions [s[i:]] and [s[:i]],
    [strings.Index] ([None] for -1), [strings.Split] and
    [strings.LastIndex] for a separator of one byte, and [strings.Join]. *)
Definition TrimPrefix (s pfx : string) : string :=
  if String.prefix pfx s then
    substring (String.length pfx) (String.length s - String.length pfx) s
  else s.

Definition sliceFrom (s : string) (i : nat) : string :=
  substring i (String.length s - i) s.

Definition sliceTo (s : string) (i : nat) : string := substring 0 i s.

Definition Index (s sep : string) : option nat := String.index 0 sep s.

Fixpoint Split (s : string) (sep : ascii) : list string :=
  match s with
  | EmptyString => [EmptyString]
  | String a rest =>
      if Ascii.eqb a sep then EmptyString :: Split rest sep
      else
        match Split rest sep with
        | p :: ps => String a p :: ps
        | [] => [String a EmptyString]
        end
  end.

Fixpoint LastIndex (s : string) (sep : ascii) : option nat :=
  match s with
  | EmptyString => None
  | String a rest =>
      match LastIndex rest sep with
      | Some i => Some (S i)
      | None => if Ascii.eqb a sep then Some 0%nat else None
      end
  end.

Fixpoint Join (parts : list string) (sep : string) : string :=
  match parts with
  | [] => EmptyString
  | [p] => p
  | p :: rest => p +:+ sep +:+ Join rest sep
  end.

(** [ParseOCIRef]. *)
Definition ParseOCIRef (ref : string) : ParseError + OCIRef :=
  let ref := TrimPrefix ref "oci://" in
  if bool_decide (ref = EmptyString) then inl ErrEmptyReference
  else
    let '(digest, ref) :=
      match Index ref "@sha256:" with
      | Some idx => (sliceFrom ref (idx + 1), sliceTo ref idx)
      | None => (EmptyString, ref)
      end in
    let parts := Split ref "/"%char in
    if (length parts <? 2)%nat then inl ErrNeedRegistryAndName
    else
      let last := List.last parts EmptyString in
      let '(tag, parts) :=
        match LastIndex last ":"%char with
        | Some idx =>
            (sliceFrom last (idx + 1),
             <[(length parts - 1)%nat := sliceTo last idx]> parts)
        | None => (EmptyString, parts)
        end in
      let tag :=
        if bool_decide (tag = EmptyString) && bool_decide (digest = EmptyString)
        then "latest" else tag in
      inr {| Registry := default EmptyString (head parts);
             Path := Join (tail parts) "/";
             Tag := tag;
             Digest := digest |}.

(** [OCIRef.String]. *)
Definition OCIRef_String (r : OCIRef) : string :=
  let s := "oci://" +:+ Registry r +:+ "/" +:+ Path r in
  if negb (bool_decide (Digest r = EmptyString)) then s +:+ "@" +:+ Digest r
  else if negb (bool_decide (Tag r = EmptyString)) then s +:+ ":" +:+ Tag r
  else s.

(** The byte [c] occurs in [s]. *)
Fixpoint occurs (c : ascii) (s : string) : bool :=
  match s with
  | EmptyString => false
  | String a rest => Ascii.eqb a c || occurs c rest
  end.

End Skills.

(** * Properties *)

(** ** Time arithmetic *)

Section TimeFacts.
Import GoTime.

Lemma wrap64_id z : inInt64 z -> wrap64 z = z.
Proof.
  unfold inInt64, wrap64, minInt64, maxInt64. intros H.
  rewrite Z.mod_small; lia.
Qed.

Lemma Sub_lt_iff t u w :
  minInt64 < w -> w <= maxInt64 -> (Sub t u < w <-> t - u < w).
Proof.
  unfold Sub. intros Hlo Hhi.
  destruct (Z.ltb_spec (t - u) minInt64);
    [|destruct (Z.ltb_spec maxInt64 (t - u))]; lia.
Qed.

End TimeFacts.

(** ** Classification defaults *)

Section ToolsFacts.
Import Tools.

Lemma tableGet_absent (m : gmap string bool) key : m !! key = None -> tableGet m key = false.
Proof. unfold tableGet. by intros ->. Qed.

Lemma classifyByTables_unknown cloud dm de sm key :
  unknownKey dm de sm key ->
  Tier (classifyByTables cloud dm de sm key) = TierRead /\
  Blocked (classifyByTables cloud dm de sm key) = false.
Proof.
  intros (Hdm & Hde & Hsm). unfold classifyByTables.
  by rewrite !tableGet_absent.
Qed.

Lemma hasAnyPrefix_app ks1 ks2 s :
  hasAnyPrefix (ks1 ++ ks2) s = hasAnyPrefix ks1 s || hasAnyPrefix ks2 s.
Proof. unfold hasAnyPrefix. apply existsb_app. Qed.

(** C1, as stated, fails on the code: the key ec2.describe-instances is in
    none of the three AWS tables, and [classifyAWSAction] does not make it
    destructive-mutation (it makes it read, as the test of the classifier
    expects). *)
Lemma aws_unknown_key_not_destructive :
  ~ (forall service command : string,
        unknownKey awsDataMutation awsDestructive awsServiceMutation
                   (service +:+ "." +:+ command) ->
        Tier (classifyAWSAction service command) = TierDestructiveMutation).
Proof.
  intros H. specialize (H "ec2" "describe-instances").
  assert (Hu : unknownKey awsDataMutation awsDestructive awsServiceMutation
                          ("ec2" +:+ "." +:+ "describe-instances")).
  { repeat split; vm_compute; reflexivity. }
  specialize (H Hu). vm_compute in H. discriminate H.
Qed.

(** C1, amended: the tables of the AWS and Azure tools fall back to read (not
    blocked) for a key that none of their tables has; the SQL classifier
    falls back to destructive-mutation for a query whose leading keyword no
    table has. *)
Theorem classification_defaults :
  (forall service command : string,
      unknownKey awsDataMutation awsDestructive awsServiceMutation
                 (service +:+ "." +:+ command) ->
      Tier (classifyAWSAction service command) = TierRead /\
      Blocked (classifyAWSAction service command) = false) /\
  (forall group command : string,
      unknownKey azureDataMutation azureDestructive azureServiceMutation
                 (group +:+ "." +:+ command) ->
      Tier (classifyAzureAction group command) = TierRead /\
      Blocked (classifyAzureAction group command) = false) /\
  (forall query : string,
      unknownSQL query -> classifySQLQuery query = TierDestructiveMutation).
Proof.
  split; [|split].
  - intros service command Hu. by apply classifyByTables_unknown.
  - intros group command Hu. by apply classifyByTables_unknown.
  - intros query Hu. unfold unknownSQL in Hu.
    rewrite !hasAnyPrefix_app in Hu.
    apply orb_false_iff in Hu as [Hr Hu].
    apply orb_false_iff in Hu as [Hd Hu].
    apply orb_false_iff in Hu as [Hs Hx].
    unfold classifySQLQuery. by rewrite Hr, Hd, Hs, Hx.
Qed.

Lemma classification_defaults_witness :
  Tier (classifyAWSAction "sts" "get-caller-identity") = TierRead /\
  Tier (classifyAzureAction "vm" "list") = TierRead /\
  classifySQLQuery "CALL some_procedure()" = TierDestructiveMutation.
Proof.
  destruct classification_defaults as (Haws & Hazure & Hsql).
  split; [|split].
  - apply (Haws "sts" "get-caller-identity"). repeat split; vm_compute; reflexivity.
  - apply (Hazure "vm" "list"). repeat split; vm_compute; reflexivity.
  - apply (Hsql "CALL some_procedure()"). vm_compute. reflexivity.
Defined.

(** The SQL model agrees with the tests of the SQL tool. *)
Example classifySQLQuery_tests :
  classifySQLQuery "  SELECT 1" = TierRead /\
  classifySQLQuery "Insert Into users VALUES (1)" = TierDataMutation /\
  classifySQLQuery "CREATE TABLE new_table (id INT)" = TierDestructiveMutation /\
  classifySQLQuery "CREATE INDEX idx_users_email ON users(email)" = TierServiceMutation /\
  classifySQLQuery "SET search_path TO public" = TierServiceMutation /\
  classifySQLQuery "drop table users" = TierDestructiveMutation.
Proof. repeat split; vm_compute; reflexivity. Qed.

End ToolsFacts.

(** ** The concurrency gate *)

Section GateFacts.
Import GoTime Scheduler.

Lemma TryStart_true_iff (t : RunTracker) k r now :
  (TryStart t k r now).1 = true <-> inflight t !! k = None.
Proof.
  unfold TryStart. destruct (inflight t !! k); simpl; split; congruence.
Qed.

Lemma NoDup_fst_filter (P : string * string -> Prop) `{!forall p, Decision (P p)}
    (l : list (string * string)) :
  NoDup (l.*1) -> NoDup ((filter P l).*1).
Proof.
  intros Hnd. eapply sublist_NoDup; [exact Hnd|].
  apply fmap_sublist, sublist_filter.
Qed.

Lemma gateInv_init : gateInv (NewRunTracker, []).
Proof.
  split; simpl.
  - constructor.
  - intros k r. rewrite lookup_empty. simpl. split; [|discriminate].
    intros H. by apply elem_of_nil in H.
Qed.

Lemma gateStep_inv st op : gateInv st -> gateInv (gateStep st op).
Proof.
  destruct st as [t live]. intros [Hnd Hmir]. simpl in *.
  destruct op as [k r now | k | maxAge now]; simpl.
  - unfold TryStart. destruct (inflight t !! k) as [info|] eqn:Hk; simpl.
    + by split.
    + split; simpl.
      * constructor; [|done]. intros Hin.
        apply list_elem_of_fmap in Hin as ([k' r'] & Heq & Hin). simpl in Heq.
        subst k'. apply Hmir in Hin. rewrite Hk in Hin. discriminate.
      * intros k' r'. rewrite elem_of_cons, Hmir.
        destruct (decide (k = k')) as [<-|Hne].
        -- rewrite lookup_insert_eq, Hk. simpl. split.
           ++ intros [Heq|Heq]; [by inversion Heq|discriminate].
           ++ intros Heq. left. by inversion Heq.
        -- rewrite lookup_insert_ne by done. split; [|by right].
           intros [Heq|Heq]; [inversion Heq; congruence|done].
  - split; simpl.
    + by apply NoDup_fst_filter.
    + intros k' r'. rewrite list_elem_of_filter, Hmir. simpl.
      destruct (decide (k = k')) as [<-|Hne].
      * rewrite lookup_delete_eq. simpl. split; [tauto|discriminate].
      * rewrite lookup_delete_ne by done. split; [tauto|]. intros; split; [congruence|done].
  - split; simpl.
    + by apply NoDup_fst_filter.
    + intros k' r'. rewrite list_elem_of_filter, Hmir. simpl.
      destruct (filter _ (inflight t) !! k') as [info|] eqn:Hf; simpl.
      * apply map_lookup_filter_Some in Hf as [Hf _]. rewrite Hf. simpl.
        split; [tauto|]. intros; split; [by eexists|done].
      * split; [|discriminate]. intros [[? Hx] _]. discriminate Hx.
Qed.

Lemma gateRun_inv ops : gateInv (gateRun ops).
Proof.
  unfold gateRun. generalize gateInv_init.
  generalize (NewRunTracker, @nil (string * string)).
  induction ops as [|op ops IH]; intros st Hst; simpl; [done|].
  apply IH. by apply gateStep_inv.
Qed.

(** C2: in the state reached by any sequence of gate operations, [TryStart]
    admits a run exactly when its agent key is absent from the in-flight
    map and then records the run name and the admission time under the key
    (a rejected call changes nothing); [Complete] removes the key, so that
    a following [TryStart] is admitted; and the admitted runs still in
    flight are at most one per agent key, the one the map holds. *)
Theorem gate_one_run_per_agent (ops : list GateOp) :
  let t := (gateRun ops).1 in
  let live := (gateRun ops).2 in
  (forall k r now, (TryStart t k r now).1 = true <-> inflight t !! k = None) /\
  (forall k r now, inflight t !! k = None ->
     inflight (TryStart t k r now).2
     = <[k := {| RunName := r; StartedAt := now |}]> (inflight t)) /\
  (forall k r now, inflight t !! k <> None -> (TryStart t k r now).2 = t) /\
  (forall k, inflight (Complete t k) !! k = None /\
             (forall k', k' <> k -> inflight (Complete t k) !! k' = inflight t !! k') /\
             forall r now, (TryStart (Complete t k) k r now).1 = true) /\
  NoDup (live.*1) /\
  (forall k r, (k, r) ∈ live <-> RunName <$> (inflight t !! k) = Some r) /\
  (forall k r1 r2, (k, r1) ∈ live -> (k, r2) ∈ live -> r1 = r2).
Proof.
  intros t live. destruct (gateRun_inv ops) as [Hnd Hmir].
  fold t live in Hnd, Hmir.
  split; [|split; [|split; [|split; [|split; [|split]]]]].
  - intros k r now. apply TryStart_true_iff.
  - intros k r now Hk. unfold TryStart. by rewrite Hk.
  - intros k r now Hk. unfold TryStart. by destruct (inflight t !! k).
  - intros k. split; [|split].
    + apply lookup_delete_eq.
    + intros k' Hne. by apply lookup_delete_ne.
    + intros r now. apply TryStart_true_iff. apply lookup_delete_eq.
  - exact Hnd.
  - exact Hmir.
  - intros k r1 r2 H1 H2. apply Hmir in H1, H2. congruence.
Qed.

(** The gate on a small run: the second admission for an agent is refused
    until the first run is completed. *)
Example gate_run_example :
  let ops := [OpTryStart "ns/a" "run-1" 10; OpTryStart "ns/a" "run-2" 20;
              OpTryStart "ns/b" "run-3" 30; OpComplete "ns/a";
              OpTryStart "ns/a" "run-4" 40] in
  (gateRun ops).2 = [("ns/a", "run-4"); ("ns/b", "run-3")] /\
  InFlightCount (gateRun ops).1 = 2.
Proof. split; vm_compute; reflexivity. Qed.

End GateFacts.

(** ** Interval schedules *)

Section IntervalFacts.
Import GoTime Scheduler.

Variable Location : Type.
Variable UTC : Location.
Variable LoadLocation : string -> option Location.
Variable ParseDuration : string -> option Duration.
Variable cronNext : string -> Location -> Time -> option Time.

Lemma loadTimezone_default (tz : string) :
  tz = "" \/ tz = "UTC" -> loadTimezone Location UTC LoadLocation tz = Some UTC.
Proof.
  unfold loadTimezone. intros [-> | ->]; reflexivity.
Qed.

Lemma NextRun_interval_branch (agent : InfraAgent) (now : Time) (loc : Location) :
  Paused agent = false ->
  loadTimezone Location UTC LoadLocation (Timezone (Schedule agent)) = Some loc ->
  Cron (Schedule agent) = "" ->
  Interval (Schedule agent) <> "" ->
  NextRun Location UTC LoadLocation ParseDuration cronNext agent now
  = nextIntervalRun ParseDuration (Interval (Schedule agent)) agent now.
Proof.
  intros Hp Htz Hcron Hint. unfold NextRun. rewrite Hp, Htz, Hcron.
  rewrite bool_decide_eq_true_2 by reflexivity. simpl.
  by rewrite bool_decide_eq_false_2.
Qed.

(** C4: for an agent on an interval schedule (not paused, a time zone that
    loads, no cron expression, an interval that parses to [dur]), [NextRun]
    is the last run time plus the interval when the agent has run, whatever
    the current time is, and the current time when it has never run; it is
    what [nextIntervalRun] computes for the interval. *)
Theorem NextRun_interval (agent : InfraAgent) (now : Time) (loc : Location)
    (dur : Duration) :
  Paused agent = false ->
  loadTimezone Location UTC LoadLocation (Timezone (Schedule agent)) = Some loc ->
  Cron (Schedule agent) = "" ->
  Interval (Schedule agent) <> "" ->
  ParseDuration (Interval (Schedule agent)) = Some dur ->
  (forall last, LastRunTime agent = Some last ->
     NextRun Location UTC LoadLocation ParseDuration cronNext agent now
     = Ok (Add last dur) /\
     nextIntervalRun ParseDuration (Interval (Schedule agent)) agent now
     = Ok (Add last dur) /\
     forall now', NextRun Location UTC LoadLocation ParseDuration cronNext agent now'
                  = NextRun Location UTC LoadLocation ParseDuration cronNext agent now) /\
  (LastRunTime agent = None ->
     NextRun Location UTC LoadLocation ParseDuration cronNext agent now = Ok now /\
     nextIntervalRun ParseDuration (Interval (Schedule agent)) agent now = Ok now).
Proof.
  intros Hp Htz Hcron Hint Hdur. split.
  - intros last Hlast.
    assert (Hint' : forall t, nextIntervalRun ParseDuration (Interval (Schedule agent)) agent t
                              = Ok (Add last dur)).
    { intros t. unfold nextIntervalRun. by rewrite Hdur, Hlast. }
    split; [|split].
    + rewrite (NextRun_interval_branch agent now loc) by done. apply Hint'.
    + apply Hint'.
    + intros now'. rewrite !(NextRun_interval_branch agent _ loc) by done.
      by rewrite !Hint'.
  - intros Hnone.
    assert (Hint' : nextIntervalRun ParseDuration (Interval (Schedule agent)) agent now
                    = Ok now).
    { unfold nextIntervalRun. by rewrite Hdur, Hnone. }
    split; [|exact Hint'].
    rewrite (NextRun_interval_branch agent now loc) by done. exact Hint'.
Qed.

End IntervalFacts.

Section IntervalWitness.
Import GoTime Scheduler.

(** Interval 5m with the last run at 10:00 (counted from midnight): the
    next run is 10:05 at any current time; never run: due now. *)
Lemma NextRun_interval_witness :
  let parse := fun s : string => if bool_decide (s = "5m") then Some (5 * Minute) else None in
  let sched := {| Cron := ""; Interval := "5m"; Timezone := "UTC" |} in
  let ran := {| Paused := false; Schedule := sched; LastRunTime := Some (10 * Hour) |} in
  let fresh := {| Paused := false; Schedule := sched; LastRunTime := None |} in
  NextRun unit tt (fun _ => None) parse (fun _ _ _ => None) ran (23 * Hour)
  = Ok (10 * Hour + 5 * Minute) /\
  NextRun unit tt (fun _ => None) parse (fun _ _ _ => None) fresh (23 * Hour)
  = Ok (23 * Hour).
Proof.
  intros parse sched ran fresh. split.
  - destruct (NextRun_interval unit tt (fun _ => None) parse (fun _ _ _ => None)
                ran (23 * Hour) tt (5 * Minute)) as [Hran _];
      [reflexivity|reflexivity|reflexivity|discriminate|reflexivity|].
    destruct (Hran (10 * Hour) eq_refl) as [Hnext _]. exact Hnext.
  - destruct (NextRun_interval unit tt (fun _ => None) parse (fun _ _ _ => None)
                fresh (23 * Hour) tt (5 * Minute)) as [_ Hfresh];
      [reflexivity|reflexivity|reflexivity|discriminate|reflexivity|].
    destruct (Hfresh eq_refl) as [Hnext _]. exact Hnext.
Defined.

End IntervalWitness.

(** ** Jitter *)

Section JitterFacts.
Import GoTime Scheduler.

Lemma maxJitterOf_min interval pct :
  maxJitterOf interval pct
  = Z.min (30 * Second) (scaleDuration interval (effectivePercent pct)).
Proof.
  unfold maxJitterOf.
  destruct (Z.ltb_spec (30 * Second) (scaleDuration interval (effectivePercent pct))); lia.
Qed.

Lemma half_bounds (m r : Z) :
  0 < m -> 0 <= r < m -> - (m / 2) <= r - Z.quot m 2 <= m / 2.
Proof.
  intros Hm Hr. rewrite Z.quot_div_nonneg by lia.
  pose proof (Z.div_mod m 2 ltac:(lia)) as Hdm.
  pose proof (Z.mod_pos_bound m 2 ltac:(lia)) as Hmod.
  lia.
Qed.

(** The conversions on a few values: exact on whole tenths, the fraction
    dropped towards zero, the default percentage for 0. *)
Example scaleDuration_values :
  scaleDuration (5 * Minute) 10%float = 30 * Second /\
  scaleDuration 1234567891 10%float = 123456789 /\
  scaleDuration (-1234567891) 10%float = -123456789 /\
  scaleDuration (2 * Hour) 10%float = 12 * Minute /\
  maxJitterOf (2 * Hour) 0%float = 30 * Second /\
  int64_of_float64 (float64_of_int64 minInt64) = minInt64.
Proof. repeat split; vm_compute; reflexivity. Qed.

(** C5: with [j] the jitter bound the code computes, which is the smaller
    of 30s and the interval scaled by the jitter percentage (10 by default),
    [ApplyJitter] returns the scheduled time itself when [j] is below
    100ms, and otherwise the scheduled time plus an offset within
    [-j/2, +j/2], for every draw of the random source; an interval of 5m
    has [j] = 30s, hence an offset within 15s either way, and an interval of
    500ms has [j] = 50ms, hence no offset. *)
Theorem ApplyJitter_bounded (scheduled : Time) (interval : Duration)
    (jitterPercent : float) (Int63n : Z -> Z) :
  (forall n, 0 < n -> 0 <= Int63n n < n) ->
  let j := maxJitterOf interval jitterPercent in
  j = Z.min (30 * Second) (scaleDuration interval (effectivePercent jitterPercent)) /\
  (j < 100 * Millisecond ->
     ApplyJitter scheduled interval jitterPercent Int63n = scheduled) /\
  (100 * Millisecond <= j ->
     - (j / 2) <= ApplyJitter scheduled interval jitterPercent Int63n - scheduled <= j / 2) /\
  maxJitterOf (5 * Minute) 0%float = 30 * Second /\
  maxJitterOf (5 * Minute) 10%float = 30 * Second /\
  - (15 * Second)
    <= ApplyJitter scheduled (5 * Minute) 10%float Int63n - scheduled
    <= 15 * Second /\
  maxJitterOf (500 * Millisecond) 10%float = 50 * Millisecond /\
  ApplyJitter scheduled (500 * Millisecond) 10%float Int63n = scheduled.
Proof.
  intros Hrand j.
  assert (Hgen : forall i p,
             100 * Millisecond <= maxJitterOf i p ->
             - (maxJitterOf i p / 2) <= ApplyJitter scheduled i p Int63n - scheduled
             <= maxJitterOf i p / 2).
  { intros i p Hj. unfold ApplyJitter.
    destruct (Z.ltb_spec (maxJitterOf i p) (100 * Millisecond)) as [Hlt|_]; [lia|].
    unfold Add.
    assert (Hpos : 0 < maxJitterOf i p) by (unfold Millisecond in Hj; lia).
    pose proof (half_bounds (maxJitterOf i p) (Int63n (maxJitterOf i p)) Hpos
                  (Hrand _ Hpos)).
    lia. }
  assert (H5 : maxJitterOf (5 * Minute) 10%float = 30 * Second) by (vm_compute; reflexivity).
  assert (H500 : maxJitterOf (500 * Millisecond) 10%float = 50 * Millisecond)
    by (vm_compute; reflexivity).
  split; [apply maxJitterOf_min|].
  split.
  { intros Hlt. unfold ApplyJitter. fold j.
    destruct (Z.ltb_spec j (100 * Millisecond)); [reflexivity|lia]. }
  split; [apply Hgen|].
  split; [vm_compute; reflexivity|].
  split; [exact H5|].
  split.
  { pose proof (Hgen (5 * Minute) 10%float) as H. rewrite H5 in H.
    generalize dependent (ApplyJitter scheduled (5 * Minute) 10%float Int63n).
    intros t Ht. unfold Second, Millisecond in *.
    change (30 * 1000000000 / 2) with 15000000000 in Ht. lia. }
  split; [exact H500|].
  unfold ApplyJitter. rewrite H500. reflexivity.
Qed.

Lemma ApplyJitter_bounded_witness :
  let draw := fun n : Z => n - 1 in
  - (15 * Second) <= ApplyJitter 1000 (5 * Minute) 10%float draw - 1000 <= 15 * Second /\
  ApplyJitter 1000 (500 * Millisecond) 10%float draw = 1000.
Proof.
  intros draw.
  assert (Hdraw : forall n, 0 < n -> 0 <= draw n < n) by (intros n Hn; unfold draw; lia).
  destruct (ApplyJitter_bounded 1000 (5 * Minute) 10%float draw Hdraw)
    as (_ & _ & _ & _ & _ & H5 & _ & H500).
  split; [exact H5|exact H500].
Defined.

End JitterFacts.

(** ** Debouncing *)

Section DebounceFacts.
Import GoTime Scheduler.

Lemma ShouldFire_first (d : Debouncer) (key : string) (now : Time) :
  last d !! key = None ->
  ShouldFire d key now
  = (true, {| window := window d; last := <[key := now]> (last d) |}).
Proof. intros Hk. unfold ShouldFire. by rewrite Hk. Qed.

Lemma ShouldFire_within (d : Debouncer) (key : string) (t0 now : Time) :
  minInt64 < window d ->
  last d !! key = Some t0 -> now - t0 < window d ->
  ShouldFire d key now = (false, d).
Proof.
  intros Hw Hk Hlt. unfold ShouldFire. rewrite Hk.
  destruct (Z.ltb_spec (Sub now t0) (window d)) as [_|Hge]; [reflexivity|].
  exfalso. unfold Sub in Hge.
  destruct (Z.ltb_spec (now - t0) minInt64);
    [|destruct (Z.ltb_spec maxInt64 (now - t0))]; lia.
Qed.

Lemma ShouldFire_after (d : Debouncer) (key : string) (t0 now : Time) :
  window d <= maxInt64 ->
  last d !! key = Some t0 -> window d <= now - t0 ->
  ShouldFire d key now
  = (true, {| window := window d; last := <[key := now]> (last d) |}).
Proof.
  intros Hw Hk Hge. unfold ShouldFire. rewrite Hk.
  destruct (Z.ltb_spec (Sub now t0) (window d)) as [Hlt|_]; [|reflexivity].
  exfalso. unfold Sub in Hlt.
  destruct (Z.ltb_spec (now - t0) minInt64);
    [|destruct (Z.ltb_spec maxInt64 (now - t0))]; unfold minInt64, maxInt64 in *; lia.
Qed.

Lemma fireAll_suppressed (d : Debouncer) (key : string) (t0 : Time) (later : list Time) :
  minInt64 < window d ->
  last d !! key = Some t0 ->
  Forall (fun t => t - t0 < window d) later ->
  fireAll d key later = (replicate (length later) false, d).
Proof.
  intros Hw Hk Hall. induction Hall as [|t later Ht _ IH]; simpl; [reflexivity|].
  rewrite (ShouldFire_within d key t0 t) by done. by rewrite IH.
Qed.

(** C6: a key that has not fired yet fires at its first call, at [t0], which
    is recorded; every later call made less than one window after [t0]
    returns false and leaves the debouncer as it is, so that [t0] stays the
    recorded time; and a call one window or more after [t0] fires again,
    however late the last suppressed call was. *)
Theorem ShouldFire_once_per_window (d : Debouncer) (key : string) (t0 : Time)
    (later : list Time) :
  0 < window d <= maxInt64 ->
  last d !! key = None ->
  Forall (fun t => t - t0 < window d) later ->
  let fired := {| window := window d; last := <[key := t0]> (last d) |} in
  fireAll d key (t0 :: later) = (true :: replicate (length later) false, fired) /\
  last fired !! key = Some t0 /\
  (forall t, t - t0 < window d -> ShouldFire fired key t = (false, fired)) /\
  (forall t, t0 + window d <= t ->
     ShouldFire fired key t
     = (true, {| window := window d; last := <[key := t]> (last fired) |})).
Proof.
  intros [Hpos Hmax] Hk Hall fired.
  assert (Hlo : minInt64 < window fired) by (simpl; unfold minInt64; lia).
  assert (Hrec : last fired !! key = Some t0) by (simpl; apply lookup_insert_eq).
  split; [|split; [exact Hrec|split]].
  - simpl. rewrite ShouldFire_first by done. fold fired.
    by rewrite (fireAll_suppressed fired key t0 later).
  - intros t Ht. by apply (ShouldFire_within fired key t0 t).
  - intros t Ht. apply (ShouldFire_after fired key t0 t); [done|done|simpl; lia].
Qed.

(** A 30s window: a burst at 0s, 10s and 29s fires once; 30s fires again. *)
Lemma ShouldFire_once_per_window_witness :
  let d := NewDebouncer 0 in
  fireAll d "alertmanager/default/watchman" [0; 10 * Second; 29 * Second]
  = ([true; false; false],
     {| window := 30 * Second;
        last := <["alertmanager/default/watchman" := 0]> ∅ |}).
Proof.
  intros d.
  apply (ShouldFire_once_per_window d "alertmanager/default/watchman" 0
           [10 * Second; 29 * Second]).
  - vm_compute. split; [reflexivity|discriminate].
  - reflexivity.
  - repeat constructor; vm_compute; reflexivity.
Defined.

End DebounceFacts.

(** ** Webhook ingestion *)

Section WebhookFacts.
Import GoTime Scheduler.

Lemma triggerAll_code (h : WebhookHandler) (source body : string)
    (clock : nat -> Time) (agents : list NamespacedName) :
  Code (triggerAll h source body clock agents).2 = StatusAccepted.
Proof.
  unfold triggerAll.
  destruct (foldl (triggerAgent source body clock)
                  (debouncer h, triggers h, 0%nat, 0%nat) agents) as [[[d chan] n] k].
  reflexivity.
Qed.

(** C10, as stated, fails on the code: a POST to /webhook/unknown, for which
    no agent is registered, whose body cannot be read to its end is answered
    400, not 202; the 400 answer is not reserved for a missing source. *)
Lemma unknown_source_unreadable_body_400 :
  ~ (forall (h : WebhookHandler) (r : Request) (clock : nat -> Time),
        Method r = "POST" ->
        extractSource (Path r) <> "" ->
        agentMap h !! extractSource (Path r) = None ->
        Code (ServeHTTP h r clock).2 = StatusAccepted).
Proof.
  intros H.
  specialize (H (NewWebhookHandler (30 * Second))
                {| Method := "POST"; Path := "/webhook/unknown";
                   sent := "{"; broken := true |}
                (fun _ => 0)).
  vm_compute in H. specialize (H eq_refl).
  assert (Hne : "unknown" <> "") by discriminate.
  specialize (H Hne eq_refl). discriminate H.
Qed.

(** C10, amended: a POST to /webhook/{source} with a non-empty source for
    which no agent is registered, and whose body is read without error, is
    answered 202 with the body of status accepted and agents 0, and the
    handler is left as it was: no trigger is put on the channel and the
    debouncer is not touched.  A POST is answered 400 exactly when the
    source is missing from the path or the body cannot be read. *)
Theorem ServeHTTP_unknown_source (h : WebhookHandler) (r : Request)
    (clock : nat -> Time) :
  Method r = "POST" ->
  (extractSource (Path r) <> "" ->
   readBody r <> None ->
   agentMap h !! extractSource (Path r) = None \/
   agentMap h !! extractSource (Path r) = Some [] ->
   ServeHTTP h r clock = (h, {| Code := StatusAccepted; Body := noAgentsBody |}) /\
   triggers (ServeHTTP h r clock).1 = triggers h) /\
  (Code (ServeHTTP h r clock).2 = StatusBadRequest <->
   extractSource (Path r) = "" \/ readBody r = None).
Proof.
  intros Hpost. split.
  - intros Hsrc Hbody Hnone.
    assert (Hserve : ServeHTTP h r clock
                     = (h, {| Code := StatusAccepted; Body := noAgentsBody |})).
    { unfold ServeHTTP. rewrite Hpost.
      rewrite bool_decide_eq_true_2 by reflexivity. simpl.
      rewrite bool_decide_eq_false_2 by exact Hsrc.
      destruct (readBody r) as [body|]; [|done].
      by destruct Hnone as [-> | ->]. }
    by rewrite Hserve.
  - unfold ServeHTTP. rewrite Hpost.
    rewrite bool_decide_eq_true_2 by reflexivity. simpl.
    case_bool_decide as Hsrc.
    + simpl. split; [by left|reflexivity].
    + destruct (readBody r) as [body|] eqn:Hbody.
      * assert (Hcode : forall res : WebhookHandler * Response,
                   Code res.2 = StatusAccepted ->
                   (Code res.2 = StatusBadRequest <->
                    extractSource (Path r) = "" \/ Some body = None)).
        { intros res ->. split; [discriminate|]. intros [?|?]; congruence. }
        destruct (agentMap h !! extractSource (Path r)) as [[|a l]|];
          apply Hcode; try reflexivity.
        apply triggerAll_code.
      * simpl. split; [by right|reflexivity].
Qed.

(** The test of the unknown source: POST /webhook/unknown with body {}. *)
Lemma ServeHTTP_unknown_source_witness :
  let h := NewWebhookHandler (30 * Second) in
  let r := {| Method := "POST"; Path := "/webhook/unknown"; sent := "{}"; broken := false |} in
  ServeHTTP h r (fun _ => 0) = (h, {| Code := 202; Body := noAgentsBody |}) /\
  triggers (ServeHTTP h r (fun _ => 0)).1 = [].
Proof.
  intros h r.
  apply (ServeHTTP_unknown_source h r (fun _ => 0)).
  - reflexivity.
  - vm_compute. discriminate.
  - vm_compute. discriminate.
  - left. vm_compute. reflexivity.
Defined.

End WebhookFacts.

(** ** Drain *)

Section DrainFacts.
Import GoTime Lifecycle.

Lemma cancelAll_cancelled (w : World) :
  cancelled w ⊆ cancelled (cancelAll w) /\
  forall key ctx, cancels (manager w) !! key = Some ctx -> ctx ∈ cancelled (cancelAll w).
Proof.
  unfold cancelAll. simpl.
  apply (map_fold_weak_ind
           (fun (acc : gset CtxId) (m : gmap string CtxId) =>
              cancelled w ⊆ acc /\
              forall key ctx, m !! key = Some ctx -> ctx ∈ acc)).
  - split; [done|]. intros key ctx Hk. by rewrite lookup_empty in Hk.
  - intros i x m acc Hi [Hsub IH]. split; [set_solver|].
    intros key ctx Hk. destruct (decide (i = key)) as [->|Hne].
    + rewrite lookup_insert_eq in Hk. set_solver.
    + rewrite lookup_insert_ne in Hk by done. specialize (IH key ctx Hk). set_solver.
Qed.

Lemma applyEnv_cons (w : World) ev events :
  applyEnv w (ev :: events)
  = applyEnv (match ev with
              | EvRegister key cancel =>
                  {| manager := RegisterRun (manager w) key cancel; cancelled := cancelled w |}
              | EvDeregister key =>
                  {| manager := DeregisterRun (manager w) key; cancelled := cancelled w |}
              | _ => w
              end) events.
Proof. reflexivity. Qed.

(** The loop returns at the first event that ends the wait. *)
Lemma drainLoop_outcome (events : list DrainEvent) (w : World) (n : Z) (w' : World) :
  drainLoop w events = Some (n, w') ->
  exists pre ev post c,
    events = pre ++ ev :: post /\
    Forall (fun e => endsWait e = false) pre /\
    endsWait ev = true /\ countOf ev = Some c /\
    ((c <= 0 /\ n = 0 /\ w' = applyEnv w pre) \/
     (0 < c /\ ev = EvDeadline c /\ n = c /\ w' = cancelAll (applyEnv w pre))).
Proof.
  revert w. induction events as [|ev events IH]; intros w Hrun; [discriminate|].
  destruct ev as [c|c|key cancel|key]; simpl in Hrun.
  - exists [], (EvDeadline c), events, c. simpl.
    destruct (Z.ltb_spec 0 c); inversion Hrun; subst;
      (split; [done|split; [constructor|split; [done|split; [done|]]]]).
    + right. by repeat split.
    + left. by repeat split.
  - destruct (Z.eqb_spec c 0) as [->|Hne].
    + inversion Hrun; subst. exists [], (EvTick 0), events, 0. simpl.
      split; [done|split; [constructor|split; [done|split; [done|]]]].
      left. by repeat split.
    + destruct (IH w Hrun) as (pre & ev & post & c' & -> & Hpre & Hend & Hc & Hout).
      exists (EvTick c :: pre), ev, post, c'.
      split; [done|split; [|split; [done|split; [done|]]]].
      * constructor; [|done]. simpl. by apply Z.eqb_neq.
      * by rewrite applyEnv_cons.
  - destruct (IH _ Hrun) as (pre & ev & post & c' & -> & Hpre & Hend & Hc & Hout).
    exists (EvRegister key cancel :: pre), ev, post, c'.
    split; [done|split; [|split; [done|split; [done|]]]].
    + by constructor.
    + by rewrite applyEnv_cons.
  - destruct (IH _ Hrun) as (pre & ev & post & c' & -> & Hpre & Hend & Hc & Hout).
    exists (EvDeregister key :: pre), ev, post, c'.
    split; [done|split; [|split; [done|split; [done|]]]].
    + by constructor.
    + by rewrite applyEnv_cons.
Qed.

(** The loop returns once the deadline is among the events. *)
Lemma drainLoop_returns (events : list DrainEvent) (w : World) (c : Z) :
  EvDeadline c ∈ events -> is_Some (drainLoop w events).
Proof.
  revert w. induction events as [|ev events IH]; intros w Hin.
  - by apply elem_of_nil in Hin.
  - destruct ev as [c'|c'|key cancel|key]; simpl.
    + destruct (0 <? c'); by eexists.
    + destruct (c' =? 0); [by eexists|].
      apply IH. apply elem_of_cons in Hin as [Heq|Hin]; [discriminate|done].
    + apply IH. apply elem_of_cons in Hin as [Heq|Hin]; [discriminate|done].
    + apply IH. apply elem_of_cons in Hin as [Heq|Hin]; [discriminate|done].
Qed.

(** C7: [WaitForDrain] returns 0 at once, cancelling nothing, when the first
    reading of the in-flight count is zero.  Otherwise it waits through the
    ticks that still find runs in flight and returns as soon as the drain
    deadline is among the events; it returns at the first tick that reads
    zero (with 0) or at the deadline.  At the deadline with [c] runs still in
    flight it returns [c], every run context registered at that moment is
    cancelled and the registry is empty.  Whenever it returns, the last
    reading of the in-flight count is zero or every registered run context
    has been cancelled. *)
Theorem WaitForDrain_outcome (w : World) (inflight : Z) (events : list DrainEvent) :
  Forall (fun ev => forall c, countOf ev = Some c -> 0 <= c) events ->
  WaitForDrain w 0 events = Some (0, w) /\
  (forall c, EvDeadline c ∈ events -> is_Some (WaitForDrain w inflight events)) /\
  (forall n w', inflight <> 0 ->
     WaitForDrain w inflight events = Some (n, w') ->
     exists pre ev post c,
       events = pre ++ ev :: post /\
       Forall (fun e => endsWait e = false) pre /\
       countOf ev = Some c /\
       ((c = 0 /\ n = 0 /\ w' = applyEnv w pre) \/
        (0 < c /\ ev = EvDeadline c /\ n = c /\
         cancels (manager w') = ∅ /\
         cancelled (applyEnv w pre) ⊆ cancelled w' /\
         forall key ctx,
           cancels (manager (applyEnv w pre)) !! key = Some ctx ->
           ctx ∈ cancelled w'))).
Proof.
  intros Hnonneg. split; [reflexivity|]. split.
  - intros c Hin. unfold WaitForDrain.
    destruct (inflight =? 0); [by eexists|]. by apply (drainLoop_returns events w c).
  - intros n w' Hne Hrun. unfold WaitForDrain in Hrun.
    destruct (Z.eqb_spec inflight 0) as [?|_]; [done|].
    destruct (drainLoop_outcome events w n w' Hrun)
      as (pre & ev & post & c & Hev & Hpre & Hend & Hc & Hout).
    exists pre, ev, post, c.
    split; [done|split; [done|split; [done|]]].
    assert (Hc0 : 0 <= c).
    { rewrite Hev in Hnonneg. apply Forall_app in Hnonneg as [_ Hrest].
      apply Forall_cons in Hrest as [Hhead _]. by apply Hhead. }
    destruct Hout as [(Hle & -> & ->)|(Hpos & -> & -> & ->)].
    + left. split; [lia|]. by split.
    + right. destruct (cancelAll_cancelled (applyEnv w pre)) as [Hsub Hall].
      split; [done|]. split; [done|]. split; [done|]. split; [done|]. by split.
Qed.

(** The test of the timeout: three runs stay in flight, two are registered;
    at the deadline both contexts are cancelled and 3 is returned. *)
Lemma WaitForDrain_outcome_witness :
  let w := {| manager := RegisterRun (RegisterRun (NewShutdownManager (200 * Millisecond))
                                                  "run-1" 1%nat) "run-2" 2%nat;
              cancelled := ∅ |} in
  exists w', WaitForDrain w 3 [EvTick 3; EvDeadline 3] = Some (3, w') /\
             1%nat ∈ cancelled w' /\ 2%nat ∈ cancelled w' /\
             cancels (manager w') = ∅.
Proof.
  intros w.
  assert (Hnn : Forall (fun ev => forall c, countOf ev = Some c -> 0 <= c)
                       [EvTick 3; EvDeadline 3]).
  { repeat constructor; intros c [= <-]; lia. }
  destruct (WaitForDrain_outcome w 3 [EvTick 3; EvDeadline 3] Hnn) as (_ & Hret & Hout).
  exists (cancelAll w). split; [reflexivity|].
  assert (Hthree : (3 : Z) <> 0) by lia.
  destruct (Hout 3 (cancelAll w) Hthree eq_refl)
    as (pre & ev & post & c & Hev & Hpre & Hc & Hcase).
  destruct pre as [|e1 [|e2 pre]]; simpl in Hev; inversion Hev; subst.
  - inversion Hc; subst.
    destruct Hcase as [(Hz & _)|(_ & _ & _ & _ & _ & _)]; [lia|].
    repeat split; vm_compute; reflexivity.
  - inversion Hc; subst.
    destruct Hcase as [(Hz & _)|(_ & _ & _ & Hempty & _ & Hall)]; [lia|].
    split; [|split; [|exact Hempty]].
    + apply (Hall "run-1"). vm_compute. reflexivity.
    + apply (Hall "run-2"). vm_compute. reflexivity.
  - destruct pre; discriminate.
Defined.

End DrainFacts.

(** ** Credential cleanup *)

Section CleanupFacts.
Import Vault.

Variable Server : Type.
Variable postRevoke : Server -> string -> Server * option string.

(** The first loop sends one request per tracked lease, in order, whatever
    the earlier requests came back with, and collects the failures. *)
Lemma revokeAll_log (ids : list string) (r : Remote Server) (errs : list VaultError) :
  exists entries : list (string * option string),
    revokeLog Server (revokeAll Server postRevoke r ids errs).1 = revokeLog Server r ++ entries /\
    entries.*1 = filter (fun id => id <> "") ids /\
    (revokeAll Server postRevoke r ids errs).2 = errs ++ omap cleanupError entries.
Proof.
  revert r errs. induction ids as [|id ids IH]; intros r errs; simpl.
  - exists []. by rewrite !app_nil_r.
  - unfold RevokeLease. case_bool_decide as Hid.
    + destruct (IH r errs) as (entries & Hlog & Hids & Herrs).
      exists entries. rewrite filter_cons_False by (intros ?; done). done.
    + destruct (postRevoke (server Server r) id) as [sv [cause|]] eqn:Hpost.
      * destruct (IH {| server := sv; revokeLog := revokeLog Server r ++ [(id, Some cause)] |}
                     (errs ++ [CleanupRevoke id (RevokeFailed id (PostFailed cause))]))
          as (entries & Hlog & Hids & Herrs).
        exists ((id, Some cause) :: entries).
        rewrite filter_cons_True by done.
        rewrite Hlog, Herrs. simpl. rewrite <- !app_assoc. simpl.
        split; [done|]. split; [by f_equal|done].
      * destruct (IH {| server := sv; revokeLog := revokeLog Server r ++ [(id, None)] |} errs)
          as (entries & Hlog & Hids & Herrs).
        exists ((id, None) :: entries).
        rewrite filter_cons_True by done.
        rewrite Hlog, Herrs. simpl. rewrite <- !app_assoc. simpl.
        split; [done|]. split; [by f_equal|done].
Qed.

Lemma zeroed_length bytes : length (zeroed bytes) = length bytes.
Proof. unfold zeroed. apply length_replicate. Qed.

Lemma zeroed_idemp bytes : zeroed (zeroed bytes) = zeroed bytes.
Proof. unfold zeroed. by rewrite length_replicate. Qed.

Lemma zeroKey_lookup (h : Heap) (k a : nat) :
  zeroKey h k !! a = if decide (a = k) then zeroed <$> (h !! a) else h !! a.
Proof.
  unfold zeroKey, Heap in *. destruct (decide (a = k)) as [->|Hne].
  - destruct (h !! k) as [bytes|] eqn:Hk.
    + by rewrite lookup_insert_eq.
    + by rewrite Hk.
  - destruct (h !! k); [by rewrite lookup_insert_ne|done].
Qed.

Lemma zeroKeys_lookup (keys : list nat) (h : Heap) (a : nat) :
  foldl zeroKey h keys !! a
  = if decide (a ∈ keys) then zeroed <$> (h !! a) else h !! a.
Proof.
  revert h. induction keys as [|k keys IH]; intros h; simpl.
  - destruct (decide (a ∈ [])) as [Hin|_]; [by apply elem_of_nil in Hin|done].
  - rewrite IH, zeroKey_lookup.
    destruct (decide (a ∈ k :: keys)) as [Hin|Hnin].
    + destruct (decide (a = k)) as [->|Hne].
      * destruct (decide (k ∈ keys)); [|done].
        destruct (h !! k); simpl; [by rewrite zeroed_idemp|done].
      * apply elem_of_cons in Hin as [?|Hin]; [done|].
        by rewrite decide_True by done.
    + apply not_elem_of_cons in Hnin as [Hne Hnin].
      by rewrite !decide_False by done.
Qed.

(** C8: [Cleanup] sends a revocation for every tracked lease, in order and
    whatever the earlier revocations came back with; the errors it returns
    are those of the revocations that failed, one per failure; every byte
    of every tracked private key is zero afterwards, while memory that is
    not a tracked key is untouched; both tracking lists are empty, so the
    active lease count is zero whatever the revocations did. *)
Theorem Cleanup_revokes_and_zeroes (m : CredentialManager) (r : Remote Server) (h : Heap) :
  exists entries : list (string * option string),
    let '(errs, m', r', h') := Cleanup Server postRevoke m r h in
    revokeLog Server r' = revokeLog Server r ++ entries /\
    entries.*1 = filter (fun id => id <> "") (leases m) /\
    errs = omap cleanupError entries /\
    leases m' = [] /\ sshKeys m' = [] /\ ActiveLeaseCount m' = 0 /\
    (forall addr bytes,
        addr ∈ sshKeys m -> h !! addr = Some bytes ->
        exists bytes', h' !! addr = Some bytes' /\
                       length bytes' = length bytes /\
                       Forall (fun b => b = Byte.x00) bytes') /\
    (forall addr, addr ∉ sshKeys m -> h' !! addr = h !! addr).
Proof.
  destruct (revokeAll_log (leases m) r []) as (entries & Hlog & Hids & Herrs).
  exists entries. unfold Vault.Cleanup.
  destruct (revokeAll Server postRevoke r (leases m) []) as [r' errs] eqn:Hrev. simpl in *.
  split; [done|]. split; [done|]. split; [done|].
  split; [done|]. split; [done|]. split; [done|]. split.
  - intros addr bytes Hin Hb. exists (zeroed bytes).
    rewrite zeroKeys_lookup, decide_True by done. rewrite Hb. simpl.
    split; [done|]. split; [apply zeroed_length|].
    unfold zeroed. by apply Forall_replicate.
  - intros addr Hnin. by rewrite zeroKeys_lookup, decide_False.
Qed.

End CleanupFacts.

Section CleanupExample.
Import Vault.

(** The test that continues on error: two leases, the first revocation
    fails; both are sent, one error comes back, nothing stays tracked, and
    the tracked key is zeroed. *)
Example Cleanup_continues_on_error :
  let post := fun (sv : unit) (id : string) =>
                (sv, if bool_decide (id = "lease-1") then Some "500" else None) in
  let m := {| leases := ["lease-1"; "lease-2"]; sshKeys := [7%nat] |} in
  let h : Heap := {[ 7%nat := [Byte.x41; Byte.x42] ]} in
  Cleanup unit post m {| server := tt; revokeLog := [] |} h
  = ([CleanupRevoke "lease-1" (RevokeFailed "lease-1" (PostFailed "500"))],
     NewCredentialManager,
     {| server := tt; revokeLog := [("lease-1", Some "500"); ("lease-2", None)] |},
     {[ 7%nat := [Byte.x00; Byte.x00] ]}).
Proof. vm_compute. reflexivity. Qed.

End CleanupExample.

(** ** Approval wait *)

Section ApprovalFacts.
Import Approval.

Lemma waitForDecision_waits (pre rest : list WaitEvent) (s : Store) :
  stillWaiting (status s) pre = true ->
  waitForDecision s (pre ++ rest)
  = waitForDecision {| status := externalStatus (status s) pre;
                       managerWrites := managerWrites s |} rest.
Proof.
  revert s. induction pre as [|ev pre IH]; intros s Hwait; simpl in *.
  - by destruct s.
  - destruct ev as [| | |st]; try discriminate.
    + apply andb_true_iff in Hwait as [Hund Hwait]. unfold decided in Hund.
      apply negb_true_iff, orb_false_iff in Hund as [Ha Hd].
      rewrite Ha, Hd. by apply IH.
    + by rewrite (IH {| status := st; managerWrites := managerWrites s |}).
Qed.

(** C9: when the caller's context is cancelled while the manager waits (no
    earlier event ended the wait), [RequestApproval] returns phase Expired,
    not approved, together with an error, and the manager has written
    nothing to the record but its creation as Pending: the stored status is
    the one outside actors left, and it is Expired only if one of them set
    it so.  The write of Expired, with decider system, happens when the
    manager's own timeout elapses. *)
Theorem RequestApproval_cancelled (pre post : list WaitEvent) :
  stillWaiting pendingStatus pre = true ->
  (exists res s,
      RequestApproval (pre ++ EvCancelled :: post) = Some (res, true, s) /\
      ResultPhase res = ApprovalPhaseExpired /\ Approved res = false /\
      managerWrites s = [pendingStatus] /\
      status s = externalStatus pendingStatus pre) /\
  (exists res s,
      RequestApproval (pre ++ EvTimeout :: post) = Some (res, false, s) /\
      ResultPhase res = ApprovalPhaseExpired /\
      managerWrites s = [pendingStatus; expiredStatus] /\
      Phase (status s) = ApprovalPhaseExpired /\ DecidedBy (status s) = "system").
Proof.
  intros Hwait. unfold RequestApproval, managerWrite. simpl. split.
  - rewrite waitForDecision_waits by exact Hwait. simpl.
    eexists _, _. split; [reflexivity|]. by repeat split.
  - rewrite waitForDecision_waits by exact Hwait. simpl.
    eexists _, _. split; [reflexivity|]. by repeat split.
Qed.

(** The test of the cancelled context: six polls find the request pending,
    then the context is cancelled; the record stays Pending. *)
Lemma RequestApproval_cancelled_witness :
  exists res s,
    RequestApproval (replicate 6 EvPoll ++ [EvCancelled]) = Some (res, true, s) /\
    ResultPhase res = ApprovalPhaseExpired /\
    managerWrites s = [pendingStatus] /\
    Phase (status s) = ApprovalPhasePending.
Proof.
  destruct (RequestApproval_cancelled (replicate 6 EvPoll) [])
    as [(res & s & Hrun & Hphase & _ & Hwrites & Hstatus) _].
  - vm_compute. reflexivity.
  - exists res, s. split; [exact Hrun|]. split; [exact Hphase|].
    split; [exact Hwrites|]. rewrite Hstatus. reflexivity.
Defined.

End ApprovalFacts.

(** ** Retention *)

Section RetentionFacts.
Import GoTime Retention.

(** *** Grouping *)

Lemma groupByAgent_fold (items : list AgentRun) (m : gmap string (list AgentRun))
    (key : string) :
  foldl (fun byAgent run =>
           <[agentKeyOf run := default [] (byAgent !! agentKeyOf run) ++ [run]]> byAgent)
        m items !! key
  = match m !! key, groupOf items key with
    | None, [] => None
    | o, g => Some (default [] o ++ g)
    end.
Proof.
  revert m. induction items as [|run items IH]; intros m; simpl.
  - unfold groupOf. simpl. destruct (m !! key); [by rewrite app_nil_r|done].
  - rewrite IH. unfold groupOf.
    destruct (decide (agentKeyOf run = key)) as [Heq|Hne].
    + rewrite filter_cons_True by done. rewrite Heq, lookup_insert_eq. simpl.
      rewrite <- app_assoc. simpl.
      destruct (m !! key); simpl; by destruct (filter _ items).
    + rewrite filter_cons_False by done. by rewrite lookup_insert_ne.
Qed.

Lemma groupByAgent_lookup (items : list AgentRun) (key : string) :
  groupByAgent items !! key
  = match groupOf items key with [] => None | g => Some g end.
Proof.
  unfold groupByAgent. rewrite groupByAgent_fold, lookup_empty. simpl.
  by destruct (groupOf items key).
Qed.

Lemma groupByAgent_Some (items : list AgentRun) (key : string) (g : list AgentRun) :
  groupByAgent items !! key = Some g -> g = groupOf items key.
Proof.
  rewrite groupByAgent_lookup. destruct (groupOf items key); congruence.
Qed.

Lemma elem_of_groupOf (items : list AgentRun) (key : string) (r : AgentRun) :
  r ∈ groupOf items key <-> agentKeyOf r = key /\ r ∈ items.
Proof. unfold groupOf. by rewrite list_elem_of_filter. Qed.

(** *** Selection *)

Lemma elem_of_eligibleFrom (cfg : Config) (cutoff : Time) (runs : list AgentRun)
    (i0 : nat) (r : AgentRun) :
  r ∈ eligibleFrom cfg cutoff i0 runs <->
  exists j, runs !! j = Some r /\ isTerminal (Phase r) = true /\
            PreserveMinPerAgent cfg <= Z.of_nat (i0 + j) /\
            Before (completionOrCreation r) cutoff = true.
Proof.
  revert i0. induction runs as [|run runs IH]; intros i0; simpl.
  - split; [intros H; by apply elem_of_nil in H|]. intros (j & Hj & _). done.
  - assert (Htail : r ∈ eligibleFrom cfg cutoff (S i0) runs <->
                    exists j, (run :: runs) !! S j = Some r /\
                              isTerminal (Phase r) = true /\
                              PreserveMinPerAgent cfg <= Z.of_nat (i0 + S j) /\
                              Before (completionOrCreation r) cutoff = true).
    { rewrite IH. simpl. split; intros (j & Hj & Ht & Hp & Hb); exists j;
        (split; [done|split; [done|split; [lia|done]]]). }
    assert (Hskip : (isTerminal (Phase run) = false \/
                     Z.of_nat i0 < PreserveMinPerAgent cfg \/
                     Before (completionOrCreation run) cutoff = false) ->
                    (r ∈ eligibleFrom cfg cutoff (S i0) runs <->
                     exists j, (run :: runs) !! j = Some r /\
                               isTerminal (Phase r) = true /\
                               PreserveMinPerAgent cfg <= Z.of_nat (i0 + j) /\
                               Before (completionOrCreation r) cutoff = true)).
    { intros Hno. rewrite Htail. split.
      - intros (j & H). by exists (S j).
      - intros ([|j] & Hj & Ht & Hp & Hb); [|by exists j].
        simpl in Hj. injection Hj as ->. rewrite Nat.add_0_r in Hp.
        destruct Hno as [Hno|[Hno|Hno]]; [congruence|lia|congruence]. }
    destruct (isTerminal (Phase run)) eqn:Hterm; simpl; [|apply Hskip; by left].
    destruct (Z.ltb_spec (Z.of_nat i0) (PreserveMinPerAgent cfg)) as [Hlt|Hge];
      [apply Hskip; right; by left|].
    destruct (Before (completionOrCreation run) cutoff) eqn:Hbef;
      [|apply Hskip; right; by right].
    rewrite elem_of_cons, Htail. split.
    + intros [->|(j & H)]; [|by exists (S j)].
      exists 0%nat. rewrite Nat.add_0_r. by repeat split.
    + intros ([|j] & Hj & Ht & Hp & Hb); [left|right; by exists j].
      simpl in Hj. by injection Hj as ->.
Qed.

Lemma elem_of_concat (ls : list (list AgentRun)) (r : AgentRun) :
  r ∈ concat ls <-> exists l, l ∈ ls /\ r ∈ l.
Proof.
  induction ls as [|l ls IH]; simpl.
  - split; [intros H; by apply elem_of_nil in H|]. intros (l & H & _).
    by apply elem_of_nil in H.
  - rewrite elem_of_app, IH. split.
    + intros [H|(l' & H1 & H2)]; [exists l; split; [by left|done]|].
      exists l'. split; [by right|done].
    + intros (l' & [->|H1]%elem_of_cons & H2); [by left|right; by exists l'].
Qed.

End RetentionFacts.

Section ScanFacts.
Import GoTime Retention.

Variable sortSlice : (AgentRun -> AgentRun -> bool) -> list AgentRun -> list AgentRun.
Variable rangeMap : gmap string (list AgentRun) -> list (string * list AgentRun).

Hypothesis sortSlice_perm : forall l, sortSlice newerThan l ≡ₚ l.
Hypothesis sortSlice_sorted : forall l, newestFirst (sortSlice newerThan l).
Hypothesis rangeMap_perm : forall m, rangeMap m ≡ₚ map_to_list m.

Lemma elem_of_sortedGroups (items : list AgentRun) (key : string) (runs : list AgentRun) :
  (key, runs) ∈ sortedGroups sortSlice rangeMap items <->
  groupOf items key <> [] /\ runs = sortSlice newerThan (groupOf items key).
Proof.
  unfold sortedGroups. rewrite rangeMap_perm, elem_of_map_to_list, lookup_fmap.
  rewrite groupByAgent_lookup. destruct (groupOf items key) as [|r g]; simpl.
  - split; [discriminate|]. intros [H _]. done.
  - split.
    + intros [= <-]. split; [discriminate|done].
    + intros [_ ->]. done.
Qed.

Lemma elem_of_selectEligible (cfg : Config) (cutoff : Time) (items : list AgentRun)
    (r : AgentRun) :
  r ∈ selectEligible sortSlice rangeMap cfg cutoff items <->
  exists j, sortSlice newerThan (groupOf items (agentKeyOf r)) !! j = Some r /\
            isTerminal (Phase r) = true /\
            PreserveMinPerAgent cfg <= Z.of_nat j /\
            Before (completionOrCreation r) cutoff = true.
Proof.
  unfold selectEligible. rewrite elem_of_concat. split.
  - intros (l & Hl & Hr). apply list_elem_of_fmap in Hl as ([key runs] & -> & Hg).
    simpl in Hr. apply elem_of_sortedGroups in Hg as [_ ->].
    apply elem_of_eligibleFrom in Hr as (j & Hj & Hrest). simpl in Hrest.
    assert (Hkey : agentKeyOf r = key).
    { apply list_elem_of_lookup_2 in Hj. rewrite sortSlice_perm in Hj.
      by apply elem_of_groupOf in Hj as [? _]. }
    rewrite Hkey. by exists j.
  - intros (j & Hj & Hrest).
    exists (eligibleFrom cfg cutoff 0 (sortSlice newerThan (groupOf items (agentKeyOf r)))).
    split.
    + apply list_elem_of_fmap.
      exists (agentKeyOf r, sortSlice newerThan (groupOf items (agentKeyOf r))).
      split; [done|]. apply elem_of_sortedGroups. split; [|done].
      apply list_elem_of_lookup_2 in Hj. rewrite sortSlice_perm in Hj.
      intros Hnil. rewrite Hnil in Hj. by apply elem_of_nil in Hj.
    + apply elem_of_eligibleFrom. exists j. by simpl.
Qed.

Lemma selectEligible_in_items (cfg : Config) (cutoff : Time) (items : list AgentRun)
    (r : AgentRun) :
  r ∈ selectEligible sortSlice rangeMap cfg cutoff items -> r ∈ items.
Proof.
  intros (j & Hj & _)%elem_of_selectEligible.
  apply list_elem_of_lookup_2 in Hj. rewrite sortSlice_perm in Hj.
  by apply elem_of_groupOf in Hj as [_ ?].
Qed.

(** *** Deletion *)

Lemma deleteAll_spec (toDelete : list AgentRun) (c : Cluster) (deleted errors : Z) :
  exists c' deleted' errors',
    deleteAll c toDelete deleted errors = (c', deleted', errors') /\
    deleteFails c' = deleteFails c /\
    objects c' `sublist_of` objects c /\
    (forall r, r ∈ objects c' <->
               r ∈ objects c /\
               forall x, x ∈ toDelete -> deleteFails c x = false ->
                         objectKey r <> objectKey x) /\
    deleted' + errors' = deleted + errors + Z.of_nat (length toDelete) /\
    deleted <= deleted' /\ errors <= errors'.
Proof.
  revert c deleted errors.
  induction toDelete as [|run rest IH]; intros c deleted errors; simpl.
  - exists c, deleted, errors. split; [done|]. split; [done|]. split; [done|].
    split; [|lia]. intros r. split; [|tauto]. intros Hr. split; [done|].
    intros x Hx. by apply elem_of_nil in Hx.
  - unfold clientDelete. destruct (deleteFails c run) eqn:Hfail.
    + destruct (IH c deleted (errors + 1))
        as (c' & d' & e' & Hrun & Hdf & Hsub & Hmem & Hsum & Hd & He).
      exists c', d', e'. rewrite Hrun. split; [done|]. split; [done|]. split; [done|].
      split; [|lia]. intros r. rewrite Hmem. split; intros [Hr Hall]; (split; [done|]).
      * intros x [->|Hx]%elem_of_cons Hok; [congruence|by apply Hall].
      * intros x Hx. apply Hall. by right.
    + case_bool_decide as Hpresent.
      * set (c1 := {| objects := filter (fun r => objectKey r <> objectKey run) (objects c);
                      listFails := listFails c; deleteFails := deleteFails c |}).
        destruct (IH c1 (deleted + 1) errors)
          as (c' & d' & e' & Hrun & Hdf & Hsub & Hmem & Hsum & Hd & He).
        exists c', d', e'. rewrite Hrun. split; [done|]. split; [done|].
        split; [etrans; [exact Hsub|apply sublist_filter]|].
        split; [|lia]. intros r. rewrite Hmem. simpl.
        rewrite list_elem_of_filter. split.
        -- intros [[Hne Hr] Hall]. split; [done|].
           intros x [->|Hx]%elem_of_cons Hok; [done|by apply Hall].
        -- intros [Hr Hall]. split; [split; [|done]|].
           ++ apply Hall; [by left|done].
           ++ intros x Hx. apply Hall. by right.
      * destruct (IH c deleted (errors + 1))
          as (c' & d' & e' & Hrun & Hdf & Hsub & Hmem & Hsum & Hd & He).
        exists c', d', e'. rewrite Hrun. split; [done|]. split; [done|]. split; [done|].
        split; [|lia]. intros r. rewrite Hmem. split; intros [Hr Hall]; (split; [done|]).
        -- intros x [->|Hx]%elem_of_cons Hok; [|by apply Hall].
           intros Heq. apply Hpresent. rewrite <- Heq. by apply list_elem_of_fmap_2.
        -- intros x Hx. apply Hall. by right.
Qed.

(** *** The scan *)

Lemma objectKey_inj (objs : list AgentRun) (r x : AgentRun) :
  NoDup (objectKey <$> objs) -> r ∈ objs -> x ∈ objs ->
  objectKey r = objectKey x -> r = x.
Proof.
  induction objs as [|o objs IH]; intros Hnd Hr Hx Heq.
  - by apply elem_of_nil in Hr.
  - rewrite fmap_cons in Hnd. apply NoDup_cons in Hnd as [Hnin Hnd].
    apply elem_of_cons in Hr as [->|Hr]; apply elem_of_cons in Hx as [->|Hx].
    + done.
    + exfalso. apply Hnin. rewrite Heq. by apply list_elem_of_fmap_2.
    + exfalso. apply Hnin. rewrite <- Heq. by apply list_elem_of_fmap_2.
    + by apply IH.
Qed.

Lemma doScan_listed (cfg : Config) (c : Cluster) (now : Time) :
  listFails c = false -> 0 <= MaxDeleteBatch cfg ->
  exists res c' attempted,
    doScan sortSlice rangeMap cfg c now = Returned res c' attempted /\
    attempted
    = take (Z.to_nat (MaxDeleteBatch cfg))
           (selectEligible sortSlice rangeMap cfg (cutoffOf cfg now) (objects c)) /\
    attempted `sublist_of`
      selectEligible sortSlice rangeMap cfg (cutoffOf cfg now) (objects c) /\
    Z.of_nat (length attempted) <= MaxDeleteBatch cfg /\
    deleteAll c attempted 0 0 = (c', Deleted res, Errors res).
Proof.
  intros Hlist Hmax. unfold doScan, clientList. rewrite Hlist.
  set (toDelete := selectEligible sortSlice rangeMap cfg (cutoffOf cfg now) (objects c)).
  destruct (Z.ltb_spec (MaxDeleteBatch cfg) (Z.of_nat (length toDelete))) as [Hover|Hfit].
  - destruct (Z.ltb_spec (MaxDeleteBatch cfg) 0) as [?|_]; [lia|].
    destruct (deleteAll c (take (Z.to_nat (MaxDeleteBatch cfg)) toDelete) 0 0)
      as [[c' d] e] eqn:Hdel.
    eexists _, c', _. split; [reflexivity|]. split; [reflexivity|].
    split; [apply sublist_take|].
    split; [|done]. rewrite length_take. lia.
  - destruct (deleteAll c toDelete 0 0) as [[c' d] e] eqn:Hdel.
    eexists _, c', _. split; [reflexivity|].
    split; [symmetry; apply take_ge; lia|]. split; [done|]. by split.
Qed.

(** C3: a sweep that lists the runs and has a batch limit that is not
    negative returns, and every run it tries to delete is a stored run that
    is terminal, is older than the cutoff by its completion time (its
    creation time when it has none), and stands at an index not below
    PreserveMinPerAgent in the runs of its agent sorted newest first; at
    most MaxDeleteBatch deletions are tried.  The deletions tried are the
    whole batch, the first MaxDeleteBatch eligible runs, whatever the
    deletions come back with: a run is gone afterwards exactly when it is in
    the batch and its deletion does not fail, so that a deletion that fails
    stops no other deletion of the batch, before it or after it; and the
    deleted and failed counts add up to the size of the batch.  So no run
    that is not terminal is deleted, and each agent keeps at least
    PreserveMinPerAgent runs, or all its runs if it has fewer. *)
Theorem doScan_retention (cfg : Config) (c : Cluster) (now : Time) :
  NoDup (objectKey <$> objects c) ->
  listFails c = false ->
  0 <= MaxDeleteBatch cfg ->
  exists res c' attempted,
    doScan sortSlice rangeMap cfg c now = Returned res c' attempted /\
    (forall r, r ∈ attempted ->
       r ∈ objects c /\ isTerminal (Phase r) = true /\
       Before (completionOrCreation r) (cutoffOf cfg now) = true /\
       exists runs i,
         runs ≡ₚ groupOf (objects c) (agentKeyOf r) /\ newestFirst runs /\
         runs !! i = Some r /\ PreserveMinPerAgent cfg <= Z.of_nat i) /\
    Z.of_nat (length attempted) <= MaxDeleteBatch cfg /\
    attempted
    = take (Z.to_nat (MaxDeleteBatch cfg))
           (selectEligible sortSlice rangeMap cfg (cutoffOf cfg now) (objects c)) /\
    Deleted res + Errors res = Z.of_nat (length attempted) /\
    (forall r, r ∈ objects c' <->
               r ∈ objects c /\ ~ (r ∈ attempted /\ deleteFails c r = false)) /\
    (forall failed r,
       failed ∈ attempted -> deleteFails c failed = true ->
       r ∈ attempted -> deleteFails c r = false -> r ∉ objects c') /\
    (forall r, r ∈ objects c -> isTerminal (Phase r) = false -> r ∈ objects c') /\
    (forall key, Z.min (PreserveMinPerAgent cfg) (countFor key (objects c))
                 <= countFor key (objects c')).
Proof.
  intros Hnd Hlist Hmax.
  destruct (doScan_listed cfg c now Hlist Hmax)
    as (res & c' & attempted & Hscan & Hbatch & Hsub & Hlen & Hdel).
  destruct (deleteAll_spec attempted c 0 0)
    as (c2 & d2 & e2 & Hdel2 & _ & Hsubl & Hmem & Hsum & _ & _).
  rewrite Hdel in Hdel2. injection Hdel2 as <- <- <-.
  assert (Hsel : forall r, r ∈ attempted ->
            r ∈ objects c /\
            exists j, sortSlice newerThan (groupOf (objects c) (agentKeyOf r)) !! j = Some r /\
                      isTerminal (Phase r) = true /\
                      PreserveMinPerAgent cfg <= Z.of_nat j /\
                      Before (completionOrCreation r) (cutoffOf cfg now) = true).
  { intros r Hr. apply (elem_of_sublist _ _ _ Hr) in Hsub as Hr'. clear Hr.
    rename Hr' into Hr. split.
    - by apply selectEligible_in_items in Hr.
    - by apply elem_of_selectEligible in Hr. }
  assert (Hgone : forall r, r ∈ objects c' <->
            r ∈ objects c /\ ~ (r ∈ attempted /\ deleteFails c r = false)).
  { intros r. rewrite Hmem. split.
    - intros [Hr Hall]. split; [done|]. intros [Hatt Hok]. by apply (Hall r).
    - intros [Hr Hnot]. split; [done|]. intros x Hx Hok Heq.
      apply Hnot. destruct (Hsel x Hx) as [Hxin _].
      assert (r = x) as -> by by apply (objectKey_inj (objects c)).
      done. }
  exists res, c', attempted. split; [done|]. split.
  { intros r Hr. destruct (Hsel r Hr) as (Hin & j & Hj & Hterm & Hpres & Hbef).
    split; [done|]. split; [done|]. split; [done|].
    exists (sortSlice newerThan (groupOf (objects c) (agentKeyOf r))), j.
    split; [apply sortSlice_perm|]. split; [apply sortSlice_sorted|]. by split. }
  split; [done|]. split; [exact Hbatch|]. split; [lia|]. split; [exact Hgone|]. split.
  { intros failed r _ _ Hr Hok [_ Hnot]%Hgone. by apply Hnot. }
  split.
  { intros r Hr Hterm. apply Hgone. split; [done|]. intros [Hatt _].
    destruct (Hsel r Hatt) as (_ & j & _ & Hterm' & _). congruence. }
  intros key. unfold countFor.
  destruct (Z.le_gt_cases (PreserveMinPerAgent cfg) 0) as [Hneg|Hpos]; [lia|].
  set (runs := sortSlice newerThan (groupOf (objects c) key)).
  set (n := Z.to_nat (PreserveMinPerAgent cfg)).
  assert (Hnd0 : NoDup (objects c)) by by apply NoDup_fmap_1 in Hnd.
  assert (Hndruns : NoDup runs).
  { unfold runs. rewrite sortSlice_perm. unfold groupOf. by apply NoDup_filter. }
  assert (Hkept : take n runs ⊆+ groupOf (objects c') key).
  { apply NoDup_submseteq.
    - eapply sublist_NoDup; [exact Hndruns|apply sublist_take].
    - intros x Hx. apply elem_of_take in Hx as (i & Hi & Hlt).
      assert (Hxg : x ∈ groupOf (objects c) key).
      { apply list_elem_of_lookup_2 in Hi. unfold runs in Hi.
        by rewrite sortSlice_perm in Hi. }
      apply elem_of_groupOf in Hxg as [Hkey Hxin].
      apply elem_of_groupOf. split; [done|]. apply Hgone. split; [done|].
      intros [Hatt _]. destruct (Hsel x Hatt) as (_ & j & Hj & _ & Hpres & _).
      rewrite Hkey in Hj. fold runs in Hj.
      assert (i = j) by by apply (NoDup_lookup runs i j x).
      unfold n in Hlt. lia. }
  apply submseteq_length in Hkept. rewrite length_take in Hkept.
  assert (Hruns : length runs = length (groupOf (objects c) key)).
  { unfold runs. by rewrite sortSlice_perm. }
  unfold n in Hkept. lia.
Qed.

End ScanFacts.

Section ScanInstance.
Import GoTime Retention.

Lemma mergeSortSlice_perm (l : list AgentRun) : mergeSortSlice newerThan l ≡ₚ l.
Proof. unfold mergeSortSlice. apply merge_sort_Permutation. Qed.

Lemma mergeSortSlice_sorted (l : list AgentRun) : newestFirst (mergeSortSlice newerThan l).
Proof.
  unfold newestFirst, mergeSortSlice.
  apply (@StronglySorted_merge_sort AgentRun notNewer).
  - intros a b c. unfold notNewer, newerThan, After.
    rewrite !Z.ltb_ge. lia.
  - intros a b. unfold notNewer, newerThan, After.
    rewrite !Z.ltb_ge. lia.
Qed.

Lemma keyOrder_perm (m : gmap string (list AgentRun)) : keyOrder m ≡ₚ map_to_list m.
Proof. reflexivity. Qed.

(** The sweep of the deletion test, with one run still running and one
    delete that fails: the batch is the three eligible runs; the delete of
    the second one fails, and the third one, tried after it, is deleted all
    the same; the running run and the three newest runs stay. *)
Lemma doScan_retention_witness :
  exists res c' attempted,
    doScan mergeSortSlice keyOrder sampleConfig sampleCluster (100 * day)
    = Returned res c' attempted /\
    attempted = [ makeRun "run-old-3" "watchman" RunPhaseSucceeded 12;
                  makeRun "run-old-5" "watchman" RunPhaseEscalated 16;
                  makeRun "run-old-6" "watchman" RunPhaseBlocked 20 ] /\
    deleteFails sampleCluster (makeRun "run-old-5" "watchman" RunPhaseEscalated 16) = true /\
    (makeRun "run-old-6" "watchman" RunPhaseBlocked 20 ∉ objects c') /\
    Deleted res + Errors res = 3 /\
    3 <= countFor "default/watchman" (objects c').
Proof.
  destruct (doScan_retention mergeSortSlice keyOrder
              mergeSortSlice_perm mergeSortSlice_sorted keyOrder_perm
              sampleConfig sampleCluster (100 * day))
    as (res & c' & attempted & Hscan & _ & _ & Hbatch & Hsum & _ & Hcont & _ & Hkeep).
  - compute_done.
  - reflexivity.
  - vm_compute. discriminate.
  - assert (Hatt : attempted
                   = [ makeRun "run-old-3" "watchman" RunPhaseSucceeded 12;
                       makeRun "run-old-5" "watchman" RunPhaseEscalated 16;
                       makeRun "run-old-6" "watchman" RunPhaseBlocked 20 ]).
    { rewrite Hbatch. vm_compute. reflexivity. }
    exists res, c', attempted. split; [exact Hscan|]. split; [exact Hatt|].
    split; [reflexivity|]. split.
    + apply (Hcont (makeRun "run-old-5" "watchman" RunPhaseEscalated 16));
        rewrite ?Hatt; try reflexivity.
      * right. by left.
      * right. right. by left.
    + split; [|exact (Hkeep "default/watchman")].
      rewrite Hsum, Hatt. reflexivity.
Defined.

Example doScan_sample :
  exists c',
    doScan mergeSortSlice keyOrder sampleConfig sampleCluster (100 * day)
    = Returned {| Scanned := 7; Eligible := 3; Deleted := 2; Errors := 1 |} c'
               [ makeRun "run-old-3" "watchman" RunPhaseSucceeded 12;
                 makeRun "run-old-5" "watchman" RunPhaseEscalated 16;
                 makeRun "run-old-6" "watchman" RunPhaseBlocked 20 ] /\
    Name <$> objects c'
    = ["run-recent"; "run-old-1"; "run-old-2"; "run-old-4"; "run-old-5"].
Proof. eexists. split; vm_compute; reflexivity. Qed.

(** A negative batch limit makes the slice expression panic. *)
Example doScan_negative_batch :
  doScan mergeSortSlice keyOrder
         {| TTL := 7 * day; ScanInterval := Hour; MaxDeleteBatch := -1;
            PreserveMinPerAgent := 3 |}
         sampleCluster (100 * day)
  = Panicked.
Proof. vm_compute. reflexivity. Qed.

End ScanInstance.

(** * Further properties of the embedded code *)

(** ** Classification by the tables *)

Section TierFacts.
Import Tools.

Lemma classifyByTables_tier cloud (dm de sm : gmap string bool) (key : string) :
  let c := classifyByTables cloud dm de sm key in
  (Tier c = TierDataMutation <-> tableGet dm key = true) /\
  (Tier c = TierDestructiveMutation <->
   tableGet dm key = false /\ tableGet de key = true) /\
  (Tier c = TierServiceMutation <->
   tableGet dm key = false /\ tableGet de key = false /\ tableGet sm key = true) /\
  (Tier c = TierRead <->
   tableGet dm key = false /\ tableGet de key = false /\ tableGet sm key = false) /\
  (Blocked c = true <-> Tier c = TierDataMutation).
Proof.
  unfold classifyByTables.
  destruct (tableGet dm key), (tableGet de key), (tableGet sm key); simpl;
    repeat split; intros; try discriminate; try tauto;
    repeat match goal with H : _ /\ _ |- _ => destruct H end; discriminate.
Qed.

(** X1: the tier the AWS and Azure classifiers give is decided by the
    tables, the data-mutation table first, then the destructive one, then
    the service one; a key in the data-mutation table is data-mutation even
    when another table has it too; and a classification is blocked exactly
    when its tier is data-mutation. *)
Theorem cloud_tier_by_precedence (service command : string) :
  let key := service +:+ "." +:+ command in
  let aws := classifyAWSAction service command in
  let azure := classifyAzureAction service command in
  (Tier aws = TierDataMutation <-> tableGet awsDataMutation key = true) /\
  (Tier aws = TierDestructiveMutation <->
   tableGet awsDataMutation key = false /\ tableGet awsDestructive key = true) /\
  (Tier aws = TierServiceMutation <->
   tableGet awsDataMutation key = false /\ tableGet awsDestructive key = false /\
   tableGet awsServiceMutation key = true) /\
  (Blocked aws = true <-> Tier aws = TierDataMutation) /\
  (Tier azure = TierDataMutation <-> tableGet azureDataMutation key = true) /\
  (Tier azure = TierDestructiveMutation <->
   tableGet azureDataMutation key = false /\ tableGet azureDestructive key = true) /\
  (Tier azure = TierServiceMutation <->
   tableGet azureDataMutation key = false /\ tableGet azureDestructive key = false /\
   tableGet azureServiceMutation key = true) /\
  (Blocked azure = true <-> Tier azure = TierDataMutation).
Proof.
  intros key aws azure.
  destruct (classifyByTables_tier "AWS" awsDataMutation awsDestructive
              awsServiceMutation key) as (A1 & A2 & A3 & _ & A5).
  destruct (classifyByTables_tier "Azure" azureDataMutation azureDestructive
              azureServiceMutation key) as (B1 & B2 & B3 & _ & B5).
  split; [exact A1|]. split; [exact A2|]. split; [exact A3|]. split; [exact A5|].
  split; [exact B1|]. split; [exact B2|]. split; [exact B3|]. exact B5.
Qed.

(** X2: a classification that the AWS or the Azure tool does not block has
    a tier the tool declares in its capability; a blocked one has the
    data-mutation tier, which neither capability declares. *)
Theorem unblocked_tier_is_declared (service command : string) :
  (Tier (classifyAWSAction service command) ∈ SupportedTiers AWSCapability <->
   Blocked (classifyAWSAction service command) = false) /\
  (Tier (classifyAzureAction service command) ∈ SupportedTiers AzureCapability <->
   Blocked (classifyAzureAction service command) = false).
Proof.
  assert (Hgen : forall cloud dm de sm key,
            Tier (classifyByTables cloud dm de sm key)
              ∈ [TierRead; TierServiceMutation; TierDestructiveMutation] <->
            Blocked (classifyByTables cloud dm de sm key) = false).
  { intros cloud dm de sm key. unfold classifyByTables.
    destruct (tableGet dm key), (tableGet de key), (tableGet sm key); simpl;
      rewrite !elem_of_cons, elem_of_nil; split; intros H;
      try discriminate; try tauto;
      repeat (destruct H as [H|H]; try discriminate); try done. }
  split; apply Hgen.
Qed.

End TierFacts.

(** ** The in-flight map *)

Section TrackerFacts.
Import GoTime Scheduler.

Lemma size_of_mirror (m : gmap string RunInfo) (live : list (string * string)) :
  NoDup (live.*1) ->
  (forall k r, (k, r) ∈ live <-> RunName <$> (m !! k) = Some r) ->
  size m = length live.
Proof.
  intros Hnd Hmir.
  assert (Hdom : (dom m : gset string) = list_to_set (live.*1)).
  { apply set_eq. intros k. rewrite elem_of_dom, elem_of_list_to_set. split.
    - intros [info Hk]. apply list_elem_of_fmap. exists (k, RunName info).
      split; [done|]. apply Hmir. by rewrite Hk.
    - intros ([k' r] & -> & Hin)%list_elem_of_fmap. apply Hmir in Hin. simpl in *.
      destruct (m !! k') as [info|]; [by eexists|discriminate]. }
  rewrite <- size_dom, Hdom, size_list_to_set by done.
  by rewrite length_fmap.
Qed.

(** X3: after any sequence of gate operations, [InFlightCount] is the
    number of admitted runs that were neither completed nor swept, and
    [IsRunning] holds for exactly their agent keys. *)
Theorem InFlightCount_counts_live (ops : list GateOp) :
  InFlightCount (gateRun ops).1 = Z.of_nat (length (gateRun ops).2) /\
  forall k, IsRunning (gateRun ops).1 k = true <-> k ∈ (gateRun ops).2.*1.
Proof.
  destruct (gateRun_inv ops) as [Hnd Hmir]. split.
  - unfold InFlightCount. f_equal. by apply size_of_mirror.
  - intros k. unfold IsRunning. split.
    + destruct (inflight (gateRun ops).1 !! k) as [info|] eqn:Hk; [|discriminate].
      intros _. apply list_elem_of_fmap. exists (k, RunName info).
      split; [done|]. apply Hmir. by rewrite Hk.
    + intros ([k' r] & -> & Hin)%list_elem_of_fmap. apply Hmir in Hin. simpl in *.
      by destruct (inflight (gateRun ops).1 !! k').
Qed.

(** X4: [CleanStale] removes exactly the entries whose run started more
    than [maxAge] before [now] and keeps every other entry as it is; the
    number it returns is the number of entries removed; a key it removed is
    admitted again by [TryStart]. *)
Theorem CleanStale_sweeps_old (t : RunTracker) (maxAge : Duration) (now : Time) :
  let swept := (CleanStale t maxAge now).2 in
  (forall k info,
      inflight swept !! k = Some info <->
      inflight t !! k = Some info /\ Sub now (StartedAt info) <= maxAge) /\
  (CleanStale t maxAge now).1
  = Z.of_nat (size (filter (fun kv => isStale maxAge now kv.2 = true) (inflight t))) /\
  InFlightCount swept = InFlightCount t - (CleanStale t maxAge now).1 /\
  (forall k info r now',
      inflight t !! k = Some info -> maxAge < Sub now (StartedAt info) ->
      (TryStart swept k r now').1 = true).
Proof.
  intros swept. unfold swept, CleanStale. simpl.
  assert (Hlook : forall k info,
             filter (fun kv : string * RunInfo => isStale maxAge now kv.2 = false)
                    (inflight t) !! k = Some info <->
             inflight t !! k = Some info /\ Sub now (StartedAt info) <= maxAge).
  { intros k info. rewrite map_lookup_filter_Some. simpl. unfold isStale.
    rewrite Z.ltb_ge. tauto. }
  assert (Hsize : size (inflight t)
                  = (size (filter (fun kv : string * RunInfo =>
                                     isStale maxAge now kv.2 = true) (inflight t))
                     + size (filter (fun kv : string * RunInfo =>
                                       isStale maxAge now kv.2 = false) (inflight t)))%nat).
  { rewrite <- map_size_disj_union.
    - f_equal. symmetry.
      rewrite <- (map_filter_union_complement
                    (fun kv : string * RunInfo => isStale maxAge now kv.2 = true)
                    (inflight t)) at 3.
      f_equal. apply map_filter_ext. intros k info _. simpl.
      destruct (isStale maxAge now info); split; congruence.
    - apply map_disjoint_spec. intros k x y Hx Hy.
      apply map_lookup_filter_Some in Hx as [Hx Hsx].
      apply map_lookup_filter_Some in Hy as [Hy Hsy]. simpl in *. congruence. }
  split; [exact Hlook|]. split; [lia|]. split.
  - unfold InFlightCount. simpl. lia.
  - intros k info r now' Hk Hold. apply TryStart_true_iff. simpl.
    destruct (filter _ (inflight t) !! k) as [info'|] eqn:Hf; [|done].
    apply Hlook in Hf as [Hk' Hle]. rewrite Hk in Hk'. injection Hk' as ->. lia.
Qed.

End TrackerFacts.

(** ** Due agents *)

Section DueFacts.
Import GoTime Scheduler.

Variable Location : Type.
Variable UTC Local : Location.
Variable LoadLocation : string -> option Location.
Variable ParseDuration : string -> option Duration.
Variable cronNext : string -> Location -> Time -> option Time.

(** X5: an agent that is due stays due at every later reading of the clock
    (until its last run time changes), and whether [IsDue] fails, and with
    which error, does not depend on the reading. *)
Theorem IsDue_stays_due (agent : InfraAgent) (now now' : Time) :
  now <= now' ->
  (IsDue Location UTC LoadLocation ParseDuration cronNext agent now = Ok true ->
   IsDue Location UTC LoadLocation ParseDuration cronNext agent now' = Ok true) /\
  (forall e,
     IsDue Location UTC LoadLocation ParseDuration cronNext agent now = Err e <->
     IsDue Location UTC LoadLocation ParseDuration cronNext agent now' = Err e).
Proof.
  intros Hle. unfold IsDue.
  destruct (Paused agent); [split; [done|intros e; split; discriminate]|].
  destruct (bool_decide (Cron (Schedule agent) = "")
            && bool_decide (Interval (Schedule agent) = ""));
    [split; [done|intros e; split; discriminate]|].
  destruct (LastRunTime agent) as [lastRun|]; [|split; [done|intros e; split; discriminate]].
  destruct (nextRunAfter Location UTC LoadLocation ParseDuration cronNext agent lastRun)
    as [t|err]; [|split; [done|intros e; split; done]].
  split; [|intros e; split; discriminate].
  intros [= Hdue]. f_equal. apply andb_true_iff in Hdue as [Hz Haft].
  apply andb_true_iff. split; [done|]. unfold After in *.
  apply Z.ltb_lt in Haft. apply Z.ltb_lt. lia.
Qed.

(** X6: for an agent without a cron expression for which [NextRun] gives a
    time [t]: [IsDue] does not fail; when the agent is due, [t] is not after
    the current time; and when [t] is a set time before the current time,
    the agent is due. *)
Theorem IsDue_follows_NextRun (agent : InfraAgent) (now t : Time) :
  Cron (Schedule agent) = "" ->
  NextRun Location UTC LoadLocation ParseDuration cronNext agent now = Ok t ->
  (forall e, IsDue Location UTC LoadLocation ParseDuration cronNext agent now <> Err e) /\
  (IsDue Location UTC LoadLocation ParseDuration cronNext agent now = Ok true -> t <= now) /\
  (t <> 0 -> t < now ->
   IsDue Location UTC LoadLocation ParseDuration cronNext agent now = Ok true).
Proof.
  intros Hcron. unfold NextRun, IsDue, nextRunAfter, nextIntervalRun.
  rewrite Hcron. rewrite (bool_decide_eq_true_2 ("" = "")) by reflexivity.
  destruct (Paused agent); simpl.
  { intros [= <-]. split; [discriminate|]. split; [discriminate|]. done. }
  destruct (loadTimezone Location UTC LoadLocation (Timezone (Schedule agent)))
    as [loc|]; [|discriminate].
  case_bool_decide as Hint; simpl.
  { intros [= <-]. split; [discriminate|]. split; [discriminate|]. done. }
  destruct (ParseDuration (Interval (Schedule agent))) as [dur|]; [|discriminate].
  destruct (LastRunTime agent) as [lastRun|]; intros [= <-].
  - split; [discriminate|]. unfold IsZero, After, Add. split.
    + intros [= Hdue]. apply andb_true_iff in Hdue as [_ Haft].
      apply Z.ltb_lt in Haft. lia.
    + intros Hnz Hlt. f_equal. apply andb_true_iff. split.
      * apply negb_true_iff. by apply Z.eqb_neq.
      * by apply Z.ltb_lt.
  - split; [discriminate|]. split; [lia|]. lia.
Qed.

(** X7: an agent that is not paused, has a schedule and has never run is
    due without its schedule being looked at: it is due also when its time
    zone does not load or its interval does not parse, where [NextRun]
    fails. *)
Theorem never_run_is_due_unchecked (agent : InfraAgent) (now : Time) :
  Paused agent = false ->
  LastRunTime agent = None ->
  Cron (Schedule agent) <> "" \/ Interval (Schedule agent) <> "" ->
  IsDue Location UTC LoadLocation ParseDuration cronNext agent now = Ok true /\
  (loadTimezone Location UTC LoadLocation (Timezone (Schedule agent)) = None ->
   NextRun Location UTC LoadLocation ParseDuration cronNext agent now
   = Err (ErrInvalidTimezone (Timezone (Schedule agent)))) /\
  (forall loc,
     loadTimezone Location UTC LoadLocation (Timezone (Schedule agent)) = Some loc ->
     Cron (Schedule agent) = "" ->
     ParseDuration (Interval (Schedule agent)) = None ->
     NextRun Location UTC LoadLocation ParseDuration cronNext agent now
     = Err (ErrInvalidInterval (Interval (Schedule agent)))).
Proof.
  intros Hp Hlast Hsched. split; [|split].
  - unfold IsDue. rewrite Hp, Hlast.
    destruct Hsched as [Hc|Hi].
    + by rewrite (bool_decide_eq_false_2 _ Hc).
    + rewrite (bool_decide_eq_false_2 _ Hi). by rewrite andb_false_r.
  - intros Htz. unfold NextRun. by rewrite Hp, Htz.
  - intros loc Htz Hcron Hparse. unfold NextRun, nextIntervalRun.
    rewrite Hp, Htz, Hcron. rewrite (bool_decide_eq_true_2 ("" = "")) by reflexivity.
    simpl. destruct Hsched as [Hc|Hi]; [done|].
    rewrite (bool_decide_eq_false_2 _ Hi). simpl. by rewrite Hparse.
Qed.

(** X8: [ComputeInterval] takes the interval of the schedule whenever it
    parses, also when a cron expression is set, while [NextRun] follows the
    cron expression in that case; with neither an interval that parses nor a
    cron expression that parses it is five minutes. *)
Theorem ComputeInterval_choice (agent : InfraAgent) (now : Time) :
  (forall dur,
     Interval (Schedule agent) <> "" ->
     ParseDuration (Interval (Schedule agent)) = Some dur ->
     ComputeInterval Location Local ParseDuration cronNext agent now = dur /\
     forall loc at_,
       Paused agent = false -> Cron (Schedule agent) <> "" ->
       loadTimezone Location UTC LoadLocation (Timezone (Schedule agent)) = Some loc ->
       NextRun Location UTC LoadLocation ParseDuration cronNext agent at_
       = nextCronRun Location cronNext (Cron (Schedule agent)) loc at_) /\
  ((Interval (Schedule agent) = "" \/ ParseDuration (Interval (Schedule agent)) = None) ->
   (Cron (Schedule agent) = "" \/ cronNext (Cron (Schedule agent)) Local now = None) ->
   ComputeInterval Location Local ParseDuration cronNext agent now = 5 * Minute).
Proof.
  split.
  - intros dur Hint Hparse. split.
    + unfold ComputeInterval. rewrite (bool_decide_eq_false_2 _ Hint). simpl.
      by rewrite Hparse.
    + intros loc at_ Hp Hcron Htz. unfold NextRun.
      rewrite Hp, Htz. by rewrite (bool_decide_eq_false_2 _ Hcron).
  - intros Hint Hcron.
    assert (Hfrom :
      (if negb (bool_decide (Cron (Schedule agent) = "")) then
         match nextCronRun Location cronNext (Cron (Schedule agent)) Local now with
         | Ok next1 =>
             match nextCronRun Location cronNext (Cron (Schedule agent)) Local next1 with
             | Ok next2 => Sub next2 next1
             | Err _ => 5 * Minute
             end
         | Err _ => 5 * Minute
         end
       else 5 * Minute) = 5 * Minute).
    { destruct Hcron as [Hc|Hc].
      - by rewrite (bool_decide_eq_true_2 _ Hc).
      - unfold nextCronRun. rewrite Hc. by destruct (negb _). }
    unfold ComputeInterval. rewrite Hfrom.
    destruct Hint as [Hi|Hi].
    + by rewrite (bool_decide_eq_true_2 _ Hi).
    + rewrite Hi. destruct (bool_decide (Interval (Schedule agent) = "")); reflexivity.
Qed.

End DueFacts.

Section DueWitness.
Import GoTime Scheduler.

Lemma IsDue_stays_due_witness :
  let parse := fun s : string => if bool_decide (s = "5m") then Some (5 * Minute) else None in
  let agent := {| Paused := false;
                  Schedule := {| Cron := ""; Interval := "5m"; Timezone := "" |};
                  LastRunTime := Some (10 * Hour) |} in
  IsDue unit tt (fun _ => None) parse (fun _ _ _ => None) agent (11 * Hour) = Ok true.
Proof.
  intros parse agent.
  apply (IsDue_stays_due unit tt (fun _ => None) parse (fun _ _ _ => None)
           agent (10 * Hour + 6 * Minute) (11 * Hour)).
  - vm_compute. discriminate.
  - reflexivity.
Defined.

Lemma IsDue_follows_NextRun_witness :
  let parse := fun s : string => if bool_decide (s = "5m") then Some (5 * Minute) else None in
  let agent := {| Paused := false;
                  Schedule := {| Cron := ""; Interval := "5m"; Timezone := "UTC" |};
                  LastRunTime := Some (10 * Hour) |} in
  IsDue unit tt (fun _ => None) parse (fun _ _ _ => None) agent (11 * Hour) = Ok true.
Proof.
  intros parse agent.
  destruct (IsDue_follows_NextRun unit tt (fun _ => None) parse (fun _ _ _ => None)
              agent (11 * Hour) (10 * Hour + 5 * Minute))
    as (_ & _ & Hdue).
  - reflexivity.
  - reflexivity.
  - apply Hdue; vm_compute; [discriminate|reflexivity].
Defined.

Lemma never_run_is_due_unchecked_witness :
  let agent := {| Paused := false;
                  Schedule := {| Cron := ""; Interval := "5m"; Timezone := "Mars/Olympus" |};
                  LastRunTime := None |} in
  IsDue unit tt (fun _ => None) (fun _ => None) (fun _ _ _ => None) agent 0 = Ok true /\
  NextRun unit tt (fun _ => None) (fun _ => None) (fun _ _ _ => None) agent 0
  = Err (ErrInvalidTimezone "Mars/Olympus").
Proof.
  intros agent.
  destruct (never_run_is_due_unchecked unit tt (fun _ => None) (fun _ => None)
              (fun _ _ _ => None) agent 0) as (Hdue & Htz & _).
  - reflexivity.
  - reflexivity.
  - right. discriminate.
  - split; [exact Hdue|]. apply Htz. reflexivity.
Defined.

End DueWitness.

(** ** The jitter range *)

Section JitterRange.
Import GoTime Scheduler.

(** X9: whatever the interval and the jitter percentage are, [ApplyJitter]
    moves the scheduled time by 15 seconds at most, either way. *)
Theorem ApplyJitter_within_15s (scheduled : Time) (interval : Duration)
    (jitterPercent : float) (Int63n : Z -> Z) :
  (forall n, 0 < n -> 0 <= Int63n n < n) ->
  - (15 * Second)
  <= ApplyJitter scheduled interval jitterPercent Int63n - scheduled
  <= 15 * Second.
Proof.
  intros Hrand. unfold ApplyJitter.
  pose proof (maxJitterOf_min interval jitterPercent) as Hmin.
  generalize dependent (maxJitterOf interval jitterPercent). intros j Hmin.
  generalize dependent (scaleDuration interval (effectivePercent jitterPercent)).
  intros sc Hmin.
  unfold Second, Millisecond, Add in *.
  destruct (Z.ltb_spec j (100 * 1000000)) as [Hlt|Hge]; [lia|].
  assert (Hpos : 0 < j) by lia.
  pose proof (half_bounds j (Int63n j) Hpos (Hrand j Hpos)) as Hb.
  assert (Hhalf : j / 2 <= 15000000000).
  { apply Z.div_le_upper_bound; lia. }
  lia.
Qed.

Lemma ApplyJitter_within_15s_witness :
  - (15 * Second)
  <= ApplyJitter 0 (2 * Hour) 25%float (fun n => n - 1) - 0
  <= 15 * Second.
Proof.
  apply (ApplyJitter_within_15s 0 (2 * Hour) 25%float (fun n => n - 1)).
  intros n Hn. lia.
Defined.

End JitterRange.

(** ** The debouncer across keys and sweeps *)

Section DebouncerFacts.
Import GoTime Scheduler.

(** X10: the keys of a debouncer do not interfere: a call for one key
    changes neither the recorded time nor the next decision of another key,
    and two calls for different keys leave the same debouncer in either
    order. *)
Theorem ShouldFire_keys_independent (d : Debouncer) (k k' : string) (now now' : Time) :
  k <> k' ->
  last (ShouldFire d k now).2 !! k' = last d !! k' /\
  (ShouldFire (ShouldFire d k now).2 k' now').1 = (ShouldFire d k' now').1 /\
  (ShouldFire (ShouldFire d k now).2 k' now').2
  = (ShouldFire (ShouldFire d k' now').2 k now).2.
Proof.
  intros Hne.
  assert (Hne' : k' <> k) by congruence.
  unfold ShouldFire.
  destruct (last d !! k) as [l|] eqn:Hk;
    destruct (last d !! k') as [l'|] eqn:Hk';
    try destruct (Sub now l <? window d) eqn:Hw;
    try destruct (Sub now' l' <? window d) eqn:Hw';
    simpl;
    rewrite ?lookup_insert_ne by done;
    rewrite ?Hk, ?Hk'; simpl; rewrite ?Hw, ?Hw'; simpl;
    rewrite ?lookup_insert_ne by done;
    rewrite ?Hk, ?Hk'; simpl; rewrite ?Hw, ?Hw'; simpl;
    (split; [done|split; [done|]]); try done;
    f_equal; by apply insert_insert_ne.
Qed.

Lemma ShouldFire_keys_independent_witness :
  (ShouldFire (ShouldFire (NewDebouncer 0) "a" 0).2 "b" 1).1
  = (ShouldFire (NewDebouncer 0) "b" 1).1.
Proof.
  destruct (ShouldFire_keys_independent (NewDebouncer 0) "a" "b" 0 1) as (_ & H & _).
  - discriminate.
  - exact H.
Defined.

(** X11: for a window between 1ns and 2^62ns, [Clean] keeps the window,
    removes exactly the entries recorded more than two windows before its
    reading of the clock, and changes no later decision of [ShouldFire]. *)
Theorem Clean_keeps_decisions (d : Debouncer) (key : string) (now now' : Time) :
  0 < window d <= 2 ^ 62 ->
  now <= now' ->
  window (Clean d now) = window d /\
  (forall k t, last (Clean d now) !! k = Some t <->
               last d !! k = Some t /\ now - 2 * window d <= t) /\
  (ShouldFire (Clean d now) key now').1 = (ShouldFire d key now').1.
Proof.
  intros [Hpos Hmax] Hle.
  assert (Hthr : Add now (wrap64 (-2 * window d)) = now - 2 * window d).
  { unfold Add. rewrite wrap64_id; [lia|]. unfold inInt64, minInt64, maxInt64. lia. }
  assert (Hlook : forall k t, last (Clean d now) !! k = Some t <->
                              last d !! k = Some t /\ now - 2 * window d <= t).
  { intros k t. unfold Clean. simpl. rewrite map_lookup_filter_Some. simpl.
    rewrite Hthr. unfold Before. rewrite Z.ltb_ge. tauto. }
  split; [reflexivity|]. split; [exact Hlook|].
  unfold ShouldFire at 2. destruct (last d !! key) as [l|] eqn:Hk.
  - destruct (decide (now - 2 * window d <= l)) as [Hkeep|Hold].
    + assert (Hc : last (Clean d now) !! key = Some l) by by apply Hlook.
      unfold ShouldFire. rewrite Hc. simpl.
      by destruct (Sub now' l <? window d).
    + assert (Hc : last (Clean d now) !! key = None).
      { destruct (last (Clean d now) !! key) as [t|] eqn:Hc; [|done].
        apply Hlook in Hc as [Ht Hge].
        pose proof (eq_trans (eq_sym Ht) Hk) as Heq. injection Heq as ->. lia. }
      unfold ShouldFire. rewrite Hc. simpl.
      destruct (Z.ltb_spec (Sub now' l) (window d)) as [Hlt|_]; [|done].
      exfalso. apply Sub_lt_iff in Hlt; unfold minInt64, maxInt64; lia.
  - assert (Hc : last (Clean d now) !! key = None).
    { destruct (last (Clean d now) !! key) as [t|] eqn:Hc; [|done].
      apply Hlook in Hc as [Ht _].
      pose proof (eq_trans (eq_sym Ht) Hk) as Heq. discriminate Heq. }
    unfold ShouldFire. by rewrite Hc.
Qed.

Lemma Clean_keeps_decisions_witness :
  let d := (ShouldFire (NewDebouncer 0) "a" 0).2 in
  (ShouldFire (Clean d (61 * Second)) "a" (62 * Second)).1
  = (ShouldFire d "a" (62 * Second)).1.
Proof.
  intros d.
  destruct (Clean_keeps_decisions d "a" (61 * Second) (62 * Second)) as (_ & _ & H).
  - vm_compute. split; [reflexivity|discriminate].
  - vm_compute. discriminate.
  - exact H.
Defined.

End DebouncerFacts.

(** ** The webhook path, the channel and the registrations *)

Section HandlerFacts.
Import GoTime Scheduler.

Lemma substring_whole (s : string) : substring 0 (String.length s) s = s.
Proof. induction s as [|c s IH]; simpl; [reflexivity|by rewrite IH]. Qed.

Lemma append_cons (a : ascii) (p s : string) : String a p +:+ s = String a (p +:+ s).
Proof. reflexivity. Qed.

Lemma prefix_split (p s : string) :
  String.prefix p s = true ->
  s = p +:+ substring (String.length p) (String.length s - String.length p) s.
Proof.
  revert s. induction p as [|a p IH]; intros s Hp.
  - change (String.length "") with 0%nat. rewrite Nat.sub_0_r, substring_whole.
    reflexivity.
  - destruct s as [|b s]; simpl in Hp; [discriminate|].
    destruct (ascii_dec a b) as [->|]; [|discriminate].
    rewrite append_cons. simpl. f_equal. by apply IH.
Qed.

Lemma prefix_append (p s : string) : String.prefix p (p +:+ s) = true.
Proof.
  induction p as [|a p IH]; [change ("" +:+ s) with s; by destruct s|].
  rewrite append_cons. simpl. by destruct (ascii_dec a a).
Qed.

Lemma substring_append (p s : string) :
  substring (String.length p) (String.length (p +:+ s) - String.length p) (p +:+ s) = s.
Proof.
  induction p as [|a p IH].
  - change ("" +:+ s) with s. change (String.length "") with 0%nat.
    rewrite Nat.sub_0_r. apply substring_whole.
  - rewrite append_cons. simpl. apply IH.
Qed.

(** X12: the source of the path /webhook/[s] is [s], and a path with a
    source is /webhook/ followed by that source: no other path has one. *)
Theorem extractSource_roundtrip (s path : string) :
  extractSource ("/webhook/" +:+ s) = s /\
  (extractSource path <> "" -> path = "/webhook/" +:+ extractSource path).
Proof.
  split.
  - unfold extractSource. rewrite prefix_append. simpl negb. cbv iota.
    apply substring_append.
  - unfold extractSource. destruct (String.prefix "/webhook/" path) eqn:Hp; simpl.
    + intros _. by apply prefix_split in Hp.
    + intros H. by destruct H.
Qed.

(** The loop over the agents appends to the channel, counts what it
    appends, never fills the channel beyond its capacity, and keeps the
    window of the debouncer. *)
Lemma triggerAgent_fold (source body : string) (clock : nat -> Time)
    (agents : list NamespacedName) (d : Debouncer) (chan : list WebhookTrigger)
    (n k : nat) :
  exists d' new k',
    foldl (triggerAgent source body clock) (d, chan, n, k) agents
    = (d', (chan ++ new)%list, (n + length new)%nat, k') /\
    window d' = window d /\
    ((length chan <= triggersCapacity)%nat ->
     (length (chan ++ new) <= triggersCapacity)%nat) /\
    Forall (fun t => Source t = source /\ Payload t = body /\ AgentKey t ∈ agents) new.
Proof.
  revert d chan n k. induction agents as [|a agents IH]; intros d chan n k; simpl.
  - exists d, [], k. rewrite app_nil_r, Nat.add_0_r. by repeat split.
  - destruct (ShouldFire d _ (clock k)) as [fire d1] eqn:Hfire.
    assert (Hwin : window d1 = window d).
    { unfold ShouldFire in Hfire.
      destruct (last d !! _) as [l|];
        [destruct (Sub (clock k) l <? window d)|]; by injection Hfire as <- <-. }
    destruct fire; [destruct (Nat.ltb_spec (length chan) triggersCapacity) as [Hroom|Hfull]|].
    + destruct (IH d1 (chan ++ [{| AgentKey := a; Source := source; Payload := body;
                                 TriggerTime := clock (S k) |}])%list (S n) (S (S k)))
        as (d' & new & k' & Hrun & Hw & Hcap & Hall).
      exists d', ({| AgentKey := a; Source := source; Payload := body;
                     TriggerTime := clock (S k) |} :: new), k'.
      rewrite Hrun. rewrite <- app_assoc. simpl.
      split; [do 2 f_equal; lia|]. split; [congruence|]. split.
      * intros _. rewrite <- app_assoc in Hcap. simpl in Hcap. apply Hcap.
        rewrite length_app. simpl. lia.
      * constructor; [simpl; split; [done|split; [done|by left]]|].
        eapply Forall_impl; [exact Hall|]. intros t (? & ? & ?).
        split; [done|split; [done|by right]].
    + destruct (IH d1 chan n (S (S k))) as (d' & new & k' & Hrun & Hw & Hcap & Hall).
      exists d', new, k'. rewrite Hrun. split; [done|]. split; [congruence|].
      split; [done|].
      eapply Forall_impl; [exact Hall|]. intros t (? & ? & ?).
      split; [done|split; [done|by right]].
    + destruct (IH d1 chan n (S k)) as (d' & new & k' & Hrun & Hw & Hcap & Hall).
      exists d', new, k'. rewrite Hrun. split; [done|]. split; [congruence|].
      split; [done|].
      eapply Forall_impl; [exact Hall|]. intros t (? & ? & ?).
      split; [done|split; [done|by right]].
Qed.

(** X13: a request only appends to the trigger channel, and never beyond
    its capacity of 100; every trigger it appends carries the source of the
    path, the body as read, and an agent registered for that source; the
    registrations and the debounce window stay as they are; and a request
    that appends a trigger is answered 202. *)
Theorem ServeHTTP_appends_triggers (h : WebhookHandler) (r : Request)
    (clock : nat -> Time) :
  exists new : list WebhookTrigger,
    triggers (ServeHTTP h r clock).1 = (triggers h ++ new)%list /\
    agentMap (ServeHTTP h r clock).1 = agentMap h /\
    window (debouncer (ServeHTTP h r clock).1) = window (debouncer h) /\
    ((length (triggers h) <= triggersCapacity)%nat ->
     (length (triggers (ServeHTTP h r clock).1) <= triggersCapacity)%nat) /\
    Forall (fun t =>
              Source t = extractSource (Path r) /\
              readBody r = Some (Payload t) /\
              exists agents, agentMap h !! extractSource (Path r) = Some agents /\
                             AgentKey t ∈ agents) new /\
    (new <> [] -> Code (ServeHTTP h r clock).2 = StatusAccepted).
Proof.
  assert (Hsame : forall resp : Response,
             exists new : list WebhookTrigger,
               triggers (h, resp).1 = (triggers h ++ new)%list /\
               agentMap (h, resp).1 = agentMap h /\
               window (debouncer (h, resp).1) = window (debouncer h) /\
               ((length (triggers h) <= triggersCapacity)%nat ->
                (length (triggers (h, resp).1) <= triggersCapacity)%nat) /\
               Forall (fun t =>
                         Source t = extractSource (Path r) /\
                         readBody r = Some (Payload t) /\
                         exists agents,
                           agentMap h !! extractSource (Path r) = Some agents /\
                           AgentKey t ∈ agents) new /\
               (new <> [] -> Code (h, resp).2 = StatusAccepted)).
  { intros resp. exists []. simpl. rewrite app_nil_r. by repeat split. }
  unfold ServeHTTP.
  destruct (negb (bool_decide (Method r = "POST"))); [apply Hsame|].
  simpl. case_bool_decide as Hsrc; [apply Hsame|].
  destruct (readBody r) as [body|] eqn:Hbody; [|apply Hsame].
  destruct (agentMap h !! extractSource (Path r)) as [[|a agents]|] eqn:Hag;
    [apply Hsame| |apply Hsame].
  unfold triggerAll.
  destruct (triggerAgent_fold (extractSource (Path r)) body clock (a :: agents)
              (debouncer h) (triggers h) 0 0)
    as (d' & new & k' & Hrun & Hw & Hcap & Hall).
  rewrite Hrun. exists new. simpl.
  split; [done|]. split; [done|]. split; [done|]. split; [done|]. split; [|done].
  eapply Forall_impl; [exact Hall|]. intros t (Hs & Hp & Hin).
  split; [done|]. split; [by rewrite Hp|]. by exists (a :: agents).
Qed.

(** X14: the answer is 405 exactly for a method other than POST, and it is
    one of 202, 400 and 405; a request that is not answered 202 leaves the
    handler as it was. *)
Theorem ServeHTTP_status (h : WebhookHandler) (r : Request) (clock : nat -> Time) :
  (Code (ServeHTTP h r clock).2 = StatusMethodNotAllowed <-> Method r <> "POST") /\
  (Code (ServeHTTP h r clock).2 = StatusAccepted \/
   Code (ServeHTTP h r clock).2 = StatusBadRequest \/
   Code (ServeHTTP h r clock).2 = StatusMethodNotAllowed) /\
  (Code (ServeHTTP h r clock).2 <> StatusAccepted -> (ServeHTTP h r clock).1 = h).
Proof.
  unfold ServeHTTP. case_bool_decide as Hm; simpl.
  - assert (Hgen : forall res : WebhookHandler * Response,
               (Code res.2 = StatusAccepted /\ True) \/
               (Code res.2 = StatusBadRequest /\ res.1 = h) ->
               (Code res.2 = StatusMethodNotAllowed <-> Method r <> "POST") /\
               (Code res.2 = StatusAccepted \/ Code res.2 = StatusBadRequest \/
                Code res.2 = StatusMethodNotAllowed) /\
               (Code res.2 <> StatusAccepted -> res.1 = h)).
    { intros res [[Hc _]|[Hc Hh]]; rewrite Hc.
      - split; [split; [discriminate|done]|]. split; [by left|done].
      - split; [split; [discriminate|done]|]. split; [right; by left|done]. }
    case_bool_decide as Hsrc; [apply Hgen; right; by split|].
    destruct (readBody r) as [body|]; [|apply Hgen; right; by split].
    destruct (agentMap h !! extractSource (Path r)) as [[|a agents]|];
      apply Hgen; left; (split; [|done]); try reflexivity.
    apply triggerAll_code.
  - split; [by split|]. split; [right; by right|done].
Qed.

(** X15: on a new handler with one agent registered for a source, the first
    POST for the source puts one trigger for the agent on the channel and
    reports one triggered; a second POST that arrives within the debounce
    window puts nothing on the channel and reports none triggered. *)
Theorem registered_agent_triggered_once (w : Duration) (source body : string)
    (agent : NamespacedName) (r : Request) (clock1 clock2 : nat -> Time) :
  Method r = "POST" ->
  extractSource (Path r) = source ->
  source <> "" ->
  readBody r = Some body ->
  clock2 0%nat - clock1 0%nat < window (NewDebouncer w) ->
  let h0 := RegisterAgent (NewWebhookHandler w) source agent in
  let first := ServeHTTP h0 r clock1 in
  let second := ServeHTTP first.1 r clock2 in
  triggers first.1
  = [{| AgentKey := agent; Source := source; Payload := body;
        TriggerTime := clock1 1%nat |}] /\
  first.2 = {| Code := StatusAccepted; Body := acceptedBody 1 1 |} /\
  triggers second.1 = triggers first.1 /\
  second.2 = {| Code := StatusAccepted; Body := acceptedBody 1 0 |}.
Proof.
  intros Hm Hsrc Hne Hbody Hwin h0 first second.
  remember (source +:+ "/" +:+ Namespace agent +:+ "/" +:+ Name agent) as key eqn:Hkey.
  set (d1 := {| window := window (NewDebouncer w);
                last := <[key := clock1 0%nat]> (last (NewDebouncer w)) |}).
  set (trig := {| AgentKey := agent; Source := source; Payload := body;
                  TriggerTime := clock1 1%nat |}).
  assert (Hmap : agentMap h0 !! source = Some [agent]).
  { unfold h0, RegisterAgent, NewWebhookHandler. simpl.
    rewrite lookup_insert_eq. by rewrite lookup_empty. }
  assert (Hserve : forall (h : WebhookHandler) (clock : nat -> Time),
             agentMap h !! source = Some [agent] ->
             ServeHTTP h r clock = triggerAll h source body clock [agent]).
  { intros h clock Hag. unfold ServeHTTP. cbv zeta. rewrite Hm, Hsrc, Hbody, Hag.
    rewrite bool_decide_eq_true_2 by reflexivity.
    rewrite bool_decide_eq_false_2 by done. reflexivity. }
  assert (Hfirst : first = ({| debouncer := d1; triggers := [trig]; agentMap := agentMap h0 |},
                            {| Code := StatusAccepted; Body := acceptedBody 1 1 |})).
  { unfold first. rewrite (Hserve h0 clock1 Hmap).
    unfold triggerAll. cbn [foldl]. unfold triggerAgent. rewrite <- Hkey.
    change (debouncer h0) with (NewDebouncer w). change (triggers h0) with (@nil WebhookTrigger).
    rewrite ShouldFire_first by apply lookup_empty. reflexivity. }
  assert (Hsecond : second = (first.1, {| Code := StatusAccepted; Body := acceptedBody 1 0 |})).
  { unfold second. rewrite Hfirst. cbn [fst].
    rewrite Hserve by exact Hmap.
    unfold triggerAll. cbn [foldl debouncer triggers agentMap]. unfold triggerAgent.
    rewrite <- Hkey.
    rewrite (ShouldFire_within d1 key (clock1 0%nat) (clock2 0%nat)).
    - reflexivity.
    - simpl. unfold minInt64. destruct (Z.leb_spec w 0); [vm_compute; reflexivity|lia].
    - simpl. apply lookup_insert_eq.
    - exact Hwin. }
  rewrite Hsecond, Hfirst. simpl. by repeat split.
Qed.

Lemma registered_agent_triggered_once_witness :
  let agent := {| Namespace := "default"; Name := "watchman" |} in
  let r := {| Method := "POST"; Path := "/webhook/alertmanager";
              sent := "{}"; broken := false |} in
  let h0 := RegisterAgent (NewWebhookHandler (30 * Second)) "alertmanager" agent in
  length (triggers (ServeHTTP h0 r (fun _ => 0)).1) = 1%nat /\
  Body (ServeHTTP (ServeHTTP h0 r (fun _ => 0)).1 r (fun _ => 10 * Second)).2
  = acceptedBody 1 0.
Proof.
  intros agent r h0.
  destruct (registered_agent_triggered_once (30 * Second) "alertmanager" "{}" agent r
              (fun _ => 0) (fun _ => 10 * Second)) as (H1 & _ & _ & H4).
  - reflexivity.
  - reflexivity.
  - discriminate.
  - reflexivity.
  - vm_compute. reflexivity.
  - fold h0 in H1, H4. split; [by rewrite H1|by rewrite H4].
Defined.

(** X16: unregistering an agent removes it from every source and leaves no
    source with an empty list; the agents that stay keep their order; and
    registering an agent and then unregistering it gives the registrations
    that unregistering alone gives. *)
Theorem UnregisterAgent_removes (h : WebhookHandler) (source : string)
    (agentKey : NamespacedName) :
  (forall s agents,
     agentMap (UnregisterAgent h agentKey) !! s = Some agents <->
     exists before,
       agentMap h !! s = Some before /\
       agents = filter (fun a => a <> agentKey) before /\ agents <> []) /\
  (forall s agents,
     agentMap (UnregisterAgent h agentKey) !! s = Some agents -> agentKey ∉ agents) /\
  agentMap (UnregisterAgent (RegisterAgent h source agentKey) agentKey)
  = agentMap (UnregisterAgent h agentKey).
Proof.
  assert (Hlook : forall h' s agents,
            agentMap (UnregisterAgent h' agentKey) !! s = Some agents <->
            exists before,
              agentMap h' !! s = Some before /\
              agents = filter (fun a => a <> agentKey) before /\ agents <> []).
  { intros h' s agents. unfold UnregisterAgent. simpl. rewrite lookup_omap.
    destruct (agentMap h' !! s) as [before|]; simpl.
    - destruct (filter (fun a => a <> agentKey) before) as [|a l] eqn:Hf.
      + split; [discriminate|]. intros (b & [= <-] & -> & Hne). by rewrite Hf in Hne.
      + split.
        * intros [= <-]. exists before. by rewrite Hf.
        * intros (b & [= <-] & -> & _). by rewrite Hf.
    - split; [discriminate|]. intros (b & Hb & _). discriminate. }
  split; [apply Hlook|]. split.
  - intros s agents (before & _ & -> & _)%Hlook.
    rewrite list_elem_of_filter. tauto.
  - apply map_eq. intros s. unfold UnregisterAgent, RegisterAgent. simpl.
    rewrite !lookup_omap. destruct (decide (source = s)) as [->|Hne].
    + rewrite lookup_insert_eq. simpl. rewrite filter_app.
      rewrite (filter_cons_False _ agentKey []) by (intros Hk; by apply Hk).
      rewrite filter_nil, app_nil_r.
      by destruct (agentMap h !! s).
    + by rewrite lookup_insert_ne.
Qed.

End HandlerFacts.

(** ** The run registry of the drain coordinator *)

Section RegistryFacts.
Import GoTime Lifecycle.

Lemma applyEnv_cancelled (events : list DrainEvent) (w : World) :
  cancelled (applyEnv w events) = cancelled w.
Proof.
  revert w. induction events as [|ev events IH]; intros w; [reflexivity|].
  rewrite applyEnv_cons, IH. by destruct ev.
Qed.

(** What [cancelAll] cancels. *)
Lemma cancelAll_elem_of (w : World) (ctx : CtxId) :
  ctx ∈ cancelled (cancelAll w) <->
  ctx ∈ cancelled w \/ exists key, cancels (manager w) !! key = Some ctx.
Proof.
  revert ctx. unfold cancelAll. simpl.
  apply (map_fold_weak_ind
           (fun (acc : gset CtxId) (m : gmap string CtxId) =>
              forall ctx, ctx ∈ acc <->
                          ctx ∈ cancelled w \/ exists key, m !! key = Some ctx)).
  - intros ctx. split; [by left|]. intros [H|[key Hk]]; [done|].
    by rewrite lookup_empty in Hk.
  - intros i x m acc Hi IH ctx. rewrite elem_of_union, elem_of_singleton, IH. split.
    + intros [->|[H|[key Hk]]].
      * right. exists i. by rewrite lookup_insert_eq.
      * by left.
      * right. exists key. rewrite lookup_insert_ne; [done|]. intros ->. congruence.
    + intros [H|[key Hk]]; [right; by left|].
      destruct (decide (i = key)) as [->|Hne].
      * rewrite lookup_insert_eq in Hk. left. congruence.
      * rewrite lookup_insert_ne in Hk by done. right. right. by exists key.
Qed.

(** X17: [cancelAll] cancels the contexts of the registered runs and no
    other context, keeps what was cancelled before, and leaves the registry
    empty, with the drain timeout as it was. *)
Theorem cancelAll_exact (w : World) :
  (forall ctx, ctx ∈ cancelled (cancelAll w) <->
               ctx ∈ cancelled w \/ exists key, cancels (manager w) !! key = Some ctx) /\
  ActiveRuns (manager (cancelAll w)) = 0 /\
  drainTimeout (manager (cancelAll w)) = drainTimeout (manager w).
Proof.
  split; [|split; reflexivity]. intros ctx. apply cancelAll_elem_of.
Qed.

(** X18: [WaitForDrain] never takes a cancellation back; when it returns 0
    it has cancelled nothing; and it returns a count other than 0 only at
    the drain deadline, with that many runs in flight and the registry
    emptied. *)
Theorem WaitForDrain_cancels_only_at_deadline (w w' : World) (inflight n : Z)
    (events : list DrainEvent) :
  WaitForDrain w inflight events = Some (n, w') ->
  cancelled w ⊆ cancelled w' /\
  (n = 0 -> cancelled w' = cancelled w) /\
  (n <> 0 ->
   inflight <> 0 /\ 0 < n /\ cancels (manager w') = ∅ /\
   exists pre post,
     events = pre ++ EvDeadline n :: post /\
     Forall (fun e => endsWait e = false) pre).
Proof.
  unfold WaitForDrain. destruct (Z.eqb_spec inflight 0) as [Hz|Hnz].
  - intros [= <- <-]. split; [done|]. split; [done|]. done.
  - intros Hrun.
    destruct (drainLoop_outcome events w n w' Hrun)
      as (pre & ev & post & c & Hev & Hpre & Hend & Hc & Hout).
    destruct Hout as [(Hle & -> & ->)|(Hpos & -> & -> & ->)].
    + rewrite applyEnv_cancelled. split; [done|]. split; [done|]. done.
    + destruct (cancelAll_cancelled (applyEnv w pre)) as [Hsub _].
      rewrite applyEnv_cancelled in Hsub.
      split; [done|]. split; [lia|]. intros _.
      split; [done|]. split; [done|]. split; [done|]. by exists pre, post.
Qed.

(** A run that ends before the deadline: the second tick reads zero, and
    the context of the run is not cancelled. *)
Lemma WaitForDrain_cancels_only_at_deadline_witness :
  let w := {| manager := RegisterRun (NewShutdownManager (30 * Second)) "run-1" 1%nat;
              cancelled := ∅ |} in
  exists w', WaitForDrain w 1 [EvTick 1; EvTick 0] = Some (0, w') /\ cancelled w' = ∅.
Proof.
  intros w. exists w. split; [reflexivity|].
  destruct (WaitForDrain_cancels_only_at_deadline w w 1 0 [EvTick 1; EvTick 0])
    as (_ & Hzero & _).
  - reflexivity.
  - by apply Hzero.
Defined.

(** X19: the registry holds one cancel function per key.  Registering a
    key that is not registered adds one run, and deregistering it gives the
    registry back.  Registering a key again replaces its cancel function:
    the count stays, and at shutdown the second context is cancelled while
    the first one, unless it is registered under another key or was
    cancelled before, is not. *)
Theorem RegisterRun_one_per_key (s : ShutdownManager) (key : string) (c1 c2 : CtxId)
    (before : gset CtxId) :
  cancels s !! key = None ->
  c1 <> c2 ->
  c1 ∉ before ->
  (forall k, cancels s !! k <> Some c1) ->
  let once := RegisterRun s key c1 in
  let twice := RegisterRun once key c2 in
  ActiveRuns once = ActiveRuns s + 1 /\
  DeregisterRun once key = s /\
  ActiveRuns twice = ActiveRuns once /\
  c2 ∈ cancelled (cancelAll {| manager := twice; cancelled := before |}) /\
  c1 ∉ cancelled (cancelAll {| manager := twice; cancelled := before |}).
Proof.
  intros Hfresh Hne Hbefore Hother once twice.
  pose proof cancelAll_elem_of as Hexact.
  split; [|split; [|split; [|split]]].
  - unfold ActiveRuns, once, RegisterRun. simpl.
    rewrite map_size_insert_None by done. lia.
  - unfold DeregisterRun, once, RegisterRun. simpl.
    rewrite delete_insert_id by done. by destruct s.
  - unfold ActiveRuns, twice, once, RegisterRun. simpl.
    rewrite map_size_insert_Some; [done|]. rewrite lookup_insert_eq. by eexists.
  - apply Hexact. right. exists key. unfold twice, RegisterRun. simpl.
    by rewrite lookup_insert_eq.
  - intros [Hin|[k Hk]]%Hexact; [done|].
    unfold twice, once, RegisterRun in Hk. simpl in Hk.
    destruct (decide (key = k)) as [->|Hkk].
    + rewrite lookup_insert_eq in Hk. congruence.
    + rewrite !lookup_insert_ne in Hk by done. by apply (Hother k).
Qed.

Lemma RegisterRun_one_per_key_witness :
  let twice := RegisterRun (RegisterRun (NewShutdownManager (30 * Second)) "run-1" 1%nat)
                           "run-1" 2%nat in
  ActiveRuns twice = 1 /\
  1%nat ∉ cancelled (cancelAll {| manager := twice; cancelled := ∅ |}).
Proof.
  intros twice.
  destruct (RegisterRun_one_per_key (NewShutdownManager (30 * Second)) "run-1"
              1%nat 2%nat ∅) as (H1 & _ & H3 & _ & H5).
  - reflexivity.
  - discriminate.
  - set_solver.
  - intros k. simpl. by rewrite lookup_empty.
  - split; [|exact H5]. fold twice in H3. rewrite H3, H1. reflexivity.
Defined.

End RegistryFacts.

(** ** What a sweep reports *)

Section ScanReport.
Import GoTime Retention.

Variable sortSlice : (AgentRun -> AgentRun -> bool) -> list AgentRun -> list AgentRun.
Variable rangeMap : gmap string (list AgentRun) -> list (string * list AgentRun).

(** X20: a sweep panics exactly when the listing succeeds and the batch
    limit is negative, whether or not any run is eligible; in every other
    case it returns. *)
Theorem doScan_panics_iff (cfg : Config) (c : Cluster) (now : Time) :
  doScan sortSlice rangeMap cfg c now = Panicked <->
  listFails c = false /\ MaxDeleteBatch cfg < 0.
Proof.
  unfold doScan, clientList. destruct (listFails c).
  - split; [discriminate|]. intros [? _]. discriminate.
  - set (toDelete := selectEligible sortSlice rangeMap cfg (cutoffOf cfg now) (objects c)).
    destruct (Z.ltb_spec (MaxDeleteBatch cfg) (Z.of_nat (length toDelete))) as [Hover|Hfit].
    + destruct (Z.ltb_spec (MaxDeleteBatch cfg) 0) as [Hneg|Hpos].
      * by split.
      * destruct (deleteAll c _ 0 0) as [[c' d] e].
        split; [discriminate|]. intros [_ ?]. lia.
    + destruct (deleteAll c toDelete 0 0) as [[c' d] e].
      split; [discriminate|]. intros [_ ?]. lia.
Qed.

(** X21: the report of a sweep that returns.  When the listing fails, it is
    one error and nothing else, and the store is not touched.  Otherwise
    Scanned is the number of stored runs, Eligible the number of all eligible
    runs, also of those beyond the batch limit; the deletions tried are the
    first MaxDeleteBatch eligible runs, so their number is the smaller of
    Eligible and MaxDeleteBatch; and Deleted and Errors, neither negative,
    add up to that number. *)
Theorem doScan_report (cfg : Config) (c c' : Cluster) (now : Time)
    (res : ScanResult) (attempted : list AgentRun) :
  doScan sortSlice rangeMap cfg c now = Returned res c' attempted ->
  (listFails c = true ->
   res = {| Scanned := 0; Eligible := 0; Deleted := 0; Errors := 1 |} /\
   c' = c /\ attempted = []) /\
  (listFails c = false ->
   let eligible := selectEligible sortSlice rangeMap cfg (cutoffOf cfg now) (objects c) in
   Scanned res = Z.of_nat (length (objects c)) /\
   Eligible res = Z.of_nat (length eligible) /\
   attempted = take (Z.to_nat (MaxDeleteBatch cfg)) eligible /\
   Z.of_nat (length attempted) = Z.min (Eligible res) (MaxDeleteBatch cfg) /\
   Deleted res + Errors res = Z.of_nat (length attempted) /\
   0 <= Deleted res /\ 0 <= Errors res).
Proof.
  unfold doScan, clientList. destruct (listFails c).
  - intros [= <- <- <-]. split; [done|]. discriminate.
  - set (toDelete := selectEligible sortSlice rangeMap cfg (cutoffOf cfg now) (objects c)).
    intros Hscan. split; [discriminate|]. intros _. cbv zeta. fold toDelete.
    destruct (Z.ltb_spec (MaxDeleteBatch cfg) (Z.of_nat (length toDelete))) as [Hover|Hfit].
    + destruct (Z.ltb_spec (MaxDeleteBatch cfg) 0) as [Hneg|Hpos]; [discriminate|].
      destruct (deleteAll_spec (take (Z.to_nat (MaxDeleteBatch cfg)) toDelete) c 0 0)
        as (c2 & d2 & e2 & Hdel & _ & _ & _ & Hsum & Hd & He).
      rewrite Hdel in Hscan. injection Hscan as <- <- <-. simpl.
      rewrite length_take in *. repeat split; try done; lia.
    + destruct (deleteAll_spec toDelete c 0 0)
        as (c2 & d2 & e2 & Hdel & _ & _ & _ & Hsum & Hd & He).
      rewrite Hdel in Hscan. injection Hscan as <- <- <-. simpl.
      repeat split; try done; try lia.
      symmetry. apply take_ge. fold toDelete. lia.
Qed.

Hypothesis sortSlice_perm : forall l, sortSlice newerThan l ≡ₚ l.
Hypothesis rangeMap_perm : forall m, rangeMap m ≡ₚ map_to_list m.

(** X22: when the eligible runs fit in the batch limit, a sweep misses
    none of them: a terminal run older than the cutoff that stands at an
    index not below PreserveMinPerAgent among the runs of its agent, newest
    first, is tried, and it is gone afterwards unless its deletion fails. *)
Theorem doScan_deletes_every_eligible (cfg : Config) (c : Cluster) (now : Time)
    (r : AgentRun) (j : nat) :
  listFails c = false ->
  Z.of_nat (length (selectEligible sortSlice rangeMap cfg (cutoffOf cfg now) (objects c)))
  <= MaxDeleteBatch cfg ->
  sortSlice newerThan (groupOf (objects c) (agentKeyOf r)) !! j = Some r ->
  isTerminal (Phase r) = true ->
  PreserveMinPerAgent cfg <= Z.of_nat j ->
  Before (completionOrCreation r) (cutoffOf cfg now) = true ->
  exists res c' attempted,
    doScan sortSlice rangeMap cfg c now = Returned res c' attempted /\
    r ∈ attempted /\
    (deleteFails c r = false -> r ∉ objects c').
Proof.
  intros Hlist Hfit Hj Hterm Hpres Hbef.
  assert (Hin : r ∈ selectEligible sortSlice rangeMap cfg (cutoffOf cfg now) (objects c)).
  { apply (elem_of_selectEligible sortSlice rangeMap sortSlice_perm rangeMap_perm).
    by exists j. }
  unfold doScan, clientList. rewrite Hlist.
  set (toDelete := selectEligible sortSlice rangeMap cfg (cutoffOf cfg now) (objects c)) in *.
  destruct (Z.ltb_spec (MaxDeleteBatch cfg) (Z.of_nat (length toDelete))) as [Hover|_];
    [lia|].
  destruct (deleteAll_spec toDelete c 0 0)
    as (c2 & d2 & e2 & Hdel & _ & _ & Hmem & _ & _ & _).
  rewrite Hdel. eexists _, c2, toDelete. split; [reflexivity|]. split; [done|].
  intros Hok [_ Hall]%Hmem. by apply (Hall r).
Qed.

End ScanReport.

Section ScanReportWitness.
Import GoTime Retention.

Lemma doScan_report_witness :
  exists res c' attempted,
    doScan mergeSortSlice keyOrder sampleConfig sampleCluster (100 * day)
    = Returned res c' attempted /\
    Scanned res = 7 /\ Z.of_nat (length attempted) = Z.min (Eligible res) 100.
Proof.
  destruct (doScan mergeSortSlice keyOrder sampleConfig sampleCluster (100 * day))
    as [res c' attempted|] eqn:Hscan; [|vm_compute in Hscan; discriminate].
  destruct (doScan_report mergeSortSlice keyOrder sampleConfig sampleCluster c'
              (100 * day) res attempted Hscan) as [_ Hrep].
  destruct (Hrep eq_refl) as (Hs & _ & _ & Hlen & _).
  exists res, c', attempted. split; [reflexivity|]. split; [exact Hs|exact Hlen].
Defined.

(** The run of twelve days ago is the fourth newest of its agent: with
    three runs preserved, it is swept. *)
Lemma doScan_deletes_every_eligible_witness :
  exists res c' attempted,
    doScan mergeSortSlice keyOrder sampleConfig sampleCluster (100 * day)
    = Returned res c' attempted /\
    makeRun "run-old-3" "watchman" RunPhaseSucceeded 12 ∈ attempted /\
    makeRun "run-old-3" "watchman" RunPhaseSucceeded 12 ∉ objects c'.
Proof.
  destruct (doScan_deletes_every_eligible mergeSortSlice keyOrder
              mergeSortSlice_perm keyOrder_perm sampleConfig sampleCluster (100 * day)
              (makeRun "run-old-3" "watchman" RunPhaseSucceeded 12) 3)
    as (res & c' & attempted & Hscan & Hin & Hgone).
  - reflexivity.
  - vm_compute. discriminate.
  - vm_compute. reflexivity.
  - reflexivity.
  - vm_compute. discriminate.
  - vm_compute. reflexivity.
  - exists res, c', attempted. split; [exact Hscan|]. split; [exact Hin|].
    apply Hgone. reflexivity.
Defined.

End ScanReportWitness.

(** ** Credentials from request to cleanup *)

Section CredentialFacts.
Import Vault.

Variable Server : Type.
Variable postRevoke : Server -> string -> Server * option string.

Lemma RequestDBCredentials_fold (granted : list (option string)) (m : CredentialManager) :
  leases (foldl RequestDBCredentials m granted)
  = leases m ++ filter (fun id => id <> "") (omap id granted) /\
  sshKeys (foldl RequestDBCredentials m granted) = sshKeys m.
Proof.
  revert m. induction granted as [|g granted IH]; intros m; simpl.
  - by rewrite app_nil_r.
  - destruct (IH (RequestDBCredentials m g)) as [Hl Hk]. rewrite Hl, Hk.
    destruct g as [leaseID|]; simpl; [|done].
    case_bool_decide as Hid; simpl.
    + subst leaseID. by rewrite filter_cons_False by (intros H; by apply H).
    + rewrite filter_cons_True by done. by rewrite <- app_assoc.
Qed.

Lemma filter_nonempty_idemp (l : list string) :
  filter (fun id => id <> "") (filter (fun id => id <> "") l)
  = filter (fun id => id <> "") l.
Proof.
  induction l as [|x l IH]; [done|].
  destruct (decide (x <> "")) as [Hx|Hx].
  - rewrite (filter_cons_True _ x l) by done. rewrite filter_cons_True by done.
    by f_equal.
  - by rewrite (filter_cons_False _ x l) by done.
Qed.

(** X23: the leases of the database credentials requested through the
    manager are tracked in the order of the requests, a failed request and
    a credential without a lease id leaving no trace; [Cleanup] then sends
    one revocation for each of them, in that order, after those of the
    leases tracked before. *)
Theorem leases_tracked_until_cleanup (m : CredentialManager) (r : Remote Server)
    (h : Heap) (granted : list (option string)) :
  let ids := filter (fun id => id <> "") (omap id granted) in
  let m' := foldl RequestDBCredentials m granted in
  leases m' = leases m ++ ids /\
  ActiveLeaseCount m' = ActiveLeaseCount m + Z.of_nat (length ids) /\
  exists entries : list (string * option string),
    revokeLog Server (Cleanup Server postRevoke m' r h).1.2
    = revokeLog Server r ++ entries /\
    entries.*1 = filter (fun id => id <> "") (leases m) ++ ids.
Proof.
  intros ids m'.
  destruct (RequestDBCredentials_fold granted m) as [Hl _]. fold m' ids in Hl.
  split; [exact Hl|]. split.
  { unfold ActiveLeaseCount. rewrite Hl, length_app. lia. }
  destruct (revokeAll_log Server postRevoke (leases m') r []) as (entries & Hlog & Hids & _).
  exists entries. unfold Cleanup.
  destruct (revokeAll Server postRevoke r (leases m') []) as [r' errs]. simpl in *.
  split; [exact Hlog|]. rewrite Hids, Hl, filter_app. f_equal.
  apply filter_nonempty_idemp.
Qed.

(** X24: [Cleanup] leaves the manager as new, whatever the revocations
    did: a second [Cleanup] sends nothing, returns no error and changes no
    memory, and after further requests the next [Cleanup] revokes the leases
    of those requests only, so that no lease is revoked twice. *)
Theorem Cleanup_resets (m : CredentialManager) (r r2 : Remote Server) (h h2 : Heap)
    (granted : list (option string)) :
  let m1 := (Cleanup Server postRevoke m r h).1.1.2 in
  m1 = NewCredentialManager /\
  Cleanup Server postRevoke m1 r2 h2 = ([], NewCredentialManager, r2, h2) /\
  exists entries : list (string * option string),
    revokeLog Server
      (Cleanup Server postRevoke (foldl RequestDBCredentials m1 granted) r2 h2).1.2
    = revokeLog Server r2 ++ entries /\
    entries.*1 = filter (fun id => id <> "") (omap id granted).
Proof.
  intros m1.
  assert (Hm1 : m1 = NewCredentialManager).
  { unfold m1, Cleanup.
    by destruct (revokeAll Server postRevoke r (leases m) []) as [r' errs]. }
  rewrite Hm1. split; [done|]. split; [done|].
  destruct (RequestDBCredentials_fold granted NewCredentialManager) as [Hl _].
  simpl in Hl.
  destruct (revokeAll_log Server postRevoke
              (leases (foldl RequestDBCredentials NewCredentialManager granted)) r2 [])
    as (entries & Hlog & Hids & _).
  exists entries. unfold Cleanup.
  destruct (revokeAll Server postRevoke r2 _ []) as [r' errs]. simpl in *.
  split; [exact Hlog|]. rewrite Hids, Hl. apply filter_nonempty_idemp.
Qed.

(** X25: what [Cleanup] does to the key material of a request for SSH
    credentials.  The generated key is a new array and the memory in use is
    left as it is.  The request succeeds exactly when the conversion and
    the signing succeed; then the credentials carry the PEM encoding of the
    key, the key array is tracked and [Cleanup] zeroes it, but the buffer
    with the PEM encoding is not zeroed, and the string in the credentials,
    being a value, stays as well.  When the request fails after the key was
    generated, the key is not tracked and [Cleanup] leaves its bytes as they
    are. *)
Theorem ssh_key_material_after_cleanup (pemEncode : list Byte.byte -> list Byte.byte)
    (m : CredentialManager) (r : Remote Server) (h : Heap)
    (privKey : list Byte.byte) (converted : bool) (signedKey : option string)
    (user : string) :
  Forall (fun a => is_Some (h !! a)) (sshKeys m) ->
  let keyAddr := fresh (dom h) in
  let out := RequestSSHCredentials pemEncode m h (Some privKey) converted signedKey user in
  let after := (Cleanup Server postRevoke out.1.2 r out.2).2 in
  h !! keyAddr = None /\
  out.2 !! keyAddr = Some privKey /\
  (forall a, is_Some (h !! a) -> out.2 !! a = h !! a) /\
  ((exists creds, out.1.1 = inr creds) <-> converted = true /\ signedKey <> None) /\
  (forall creds, out.1.1 = inr creds ->
     PrivateKey creds = pemEncode privKey /\
     Some (Certificate creds) = signedKey /\
     after !! keyAddr = Some (zeroed privKey) /\
     exists pemAddr,
       pemAddr <> keyAddr /\ h !! pemAddr = None /\
       out.2 !! pemAddr = Some (pemEncode privKey) /\
       after !! pemAddr = Some (pemEncode privKey)) /\
  (forall e, out.1.1 = inl e ->
     out.1.2 = m /\ after !! keyAddr = Some privKey).
Proof.
  intros Hall. cbv zeta. unfold RequestSSHCredentials, Heap in *. cbv zeta.
  remember (fresh (dom h)) as keyAddr eqn:Hk.
  assert (Hfresh : h !! keyAddr = None).
  { rewrite Hk. apply not_elem_of_dom. apply is_fresh. }
  assert (Hnin : keyAddr ∉ sshKeys m).
  { intros Hin. rewrite Forall_forall in Hall. destruct (Hall keyAddr Hin) as [x Hx].
    congruence. }
  assert (Hclean : forall mm (hh : gmap nat (list Byte.byte)) a,
             (Cleanup Server postRevoke mm r hh).2 !! a
             = if decide (a ∈ sshKeys mm) then zeroed <$> (hh !! a) else hh !! a).
  { intros mm hh a. unfold Cleanup.
    destruct (revokeAll Server postRevoke r (leases mm) []) as [r' errs].
    cbn [snd]. apply zeroKeys_lookup. }
  assert (Hold : forall a x, is_Some (h !! a) -> <[keyAddr := x]> h !! a = h !! a).
  { intros a x [y Hy]. apply lookup_insert_ne. intros <-. congruence. }
  destruct converted; cbn [negb]; cbv iota.
  - destruct signedKey as [cert|]; cbn [fst snd].
    + remember (fresh (dom (<[keyAddr := privKey]> h))) as pemAddr eqn:Hp.
      assert (Hpfresh : <[keyAddr := privKey]> h !! pemAddr = None).
      { rewrite Hp. apply not_elem_of_dom. apply is_fresh. }
      assert (Hpk : pemAddr <> keyAddr).
      { intros Heq. rewrite Heq in Hpfresh.
        rewrite lookup_insert_eq in Hpfresh. discriminate. }
      assert (Hph : h !! pemAddr = None).
      { by rewrite lookup_insert_ne in Hpfresh by done. }
      split; [done|]. split.
      { rewrite lookup_insert_ne by done. apply lookup_insert_eq. }
      split.
      { intros a Ha. rewrite lookup_insert_ne.
        - by apply Hold.
        - intros <-. destruct Ha as [y Hy]. congruence. }
      split; [split; [by intros _|intros _; by eexists]|].
      split; [|intros e He; discriminate He].
      intros creds [= <-]. cbn [PrivateKey Certificate].
      split; [done|]. split; [done|]. split.
      { rewrite Hclean. cbn [sshKeys].
        rewrite decide_True by (apply elem_of_app; right; by left).
        rewrite lookup_insert_ne by done. by rewrite lookup_insert_eq. }
      exists pemAddr. split; [done|]. split; [done|].
      split; [apply lookup_insert_eq|].
      rewrite Hclean. cbn [sshKeys]. rewrite decide_False.
      * apply lookup_insert_eq.
      * intros [Hin|Hin]%elem_of_app.
        -- rewrite Forall_forall in Hall. destruct (Hall pemAddr Hin) as [y Hy].
           congruence.
        -- apply list_elem_of_singleton in Hin. done.
    + split; [done|]. split; [apply lookup_insert_eq|].
      split; [intros a Ha; by apply Hold|].
      split; [split; [intros [creds Hc]; discriminate Hc|intros [_ Hs]; done]|].
      split; [intros creds Hc; discriminate Hc|].
      intros e _. split; [done|].
      rewrite Hclean, decide_False by done. apply lookup_insert_eq.
  - cbn [fst snd]. split; [done|]. split; [apply lookup_insert_eq|].
    split; [intros a Ha; by apply Hold|].
    split; [split; [intros [creds Hc]; discriminate Hc|intros [Hc _]; discriminate Hc]|].
    split; [intros creds Hc; discriminate Hc|].
    intros e _. split; [done|].
    rewrite Hclean, decide_False by done. apply lookup_insert_eq.
Qed.

End CredentialFacts.

Section CredentialWitness.
Import Vault.

(** A signed key of two bytes, with the identity standing for the PEM
    encoding: after [Cleanup] the key array is zero, and a copy of the key
    is still in memory. *)
Lemma ssh_key_material_after_cleanup_witness :
  let post := fun (sv : unit) (_ : string) => (sv, @None string) in
  let out := RequestSSHCredentials (fun bytes => bytes) NewCredentialManager ∅
               (Some [Byte.x41; Byte.x42]) true (Some "cert") "root" in
  let after := (Cleanup unit post out.1.2 {| server := tt; revokeLog := [] |} out.2).2 in
  after !! fresh (dom (∅ : Heap)) = Some [Byte.x00; Byte.x00] /\
  exists pemAddr, after !! pemAddr = Some [Byte.x41; Byte.x42].
Proof.
  intros post out after.
  destruct (ssh_key_material_after_cleanup unit post (fun bytes => bytes)
              NewCredentialManager {| server := tt; revokeLog := [] |} ∅
              [Byte.x41; Byte.x42] true (Some "cert") "root")
    as (_ & _ & _ & _ & Hok & _); [constructor|].
  destruct (Hok {| PrivateKey := [Byte.x41; Byte.x42]; Certificate := "cert";
                   User := "root" |} eq_refl)
    as (_ & _ & Hzero & pemAddr & _ & _ & _ & Hpem).
  split; [exact Hzero|]. exists pemAddr. exact Hpem.
Defined.

End CredentialWitness.

(** ** Truncation *)

Section TruncateFacts.
Import Vault.

Lemma length_append (s t : string) :
  String.length (s +:+ t) = (String.length s + String.length t)%nat.
Proof.
  induction s as [|a s IH]; [reflexivity|].
  rewrite append_cons. simpl. by rewrite IH.
Qed.

Lemma length_substring_0 (s : string) (n : nat) :
  (n <= String.length s)%nat -> String.length (substring 0 n s) = n.
Proof.
  revert n. induction s as [|a s IH]; intros n Hn; simpl in *.
  - destruct n; [reflexivity|lia].
  - destruct n; [reflexivity|]. simpl. rewrite IH; [done|lia].
Qed.

(** X26: [truncate] panics exactly for a negative bound; it returns a
    string of at most [max] bytes as it is; and of a longer string it returns
    the first [max] bytes followed by three dots, [max] + 3 bytes in all,
    which is more than the string had when it was one or two bytes over the
    bound. *)
Theorem truncate_cases (s : string) (max : Z) :
  (truncate s max = None <-> max < 0) /\
  (Z.of_nat (String.length s) <= max -> truncate s max = Some s) /\
  (0 <= max < Z.of_nat (String.length s) ->
   exists t,
     truncate s max = Some t /\
     t = substring 0 (Z.to_nat max) s +:+ "..." /\
     Z.of_nat (String.length t) = max + 3 /\
     String.prefix (substring 0 (Z.to_nat max) s) t = true).
Proof.
  unfold truncate.
  destruct (Z.leb_spec (Z.of_nat (String.length s)) max) as [Hle|Hgt].
  - split; [split; [discriminate|lia]|]. split; [done|lia].
  - destruct (Z.ltb_spec max 0) as [Hneg|Hpos].
    + split; [by split|]. split; lia.
    + split; [split; [discriminate|lia]|]. split; [lia|].
      intros _. eexists. split; [reflexivity|]. split; [reflexivity|].
      split; [|apply prefix_append].
      rewrite length_append, length_substring_0 by lia.
      change (String.length "...") with 3%nat. lia.
Qed.

End TruncateFacts.

(** ** Skill references *)

Section SkillsFacts.
Import Skills.

(** The references of the parser's tests. *)
Example ParseOCIRef_tests :
  ParseOCIRef "oci://ghcr.io/legator-skills/cluster-health:v1.0"
  = inr {| Registry := "ghcr.io"; Path := "legator-skills/cluster-health";
           Tag := "v1.0"; Digest := "" |} /\
  ParseOCIRef "oci://ghcr.io/my-org/my-skill"
  = inr {| Registry := "ghcr.io"; Path := "my-org/my-skill";
           Tag := "latest"; Digest := "" |} /\
  ParseOCIRef "ghcr.io/org/skill:v2.0"
  = inr {| Registry := "ghcr.io"; Path := "org/skill"; Tag := "v2.0"; Digest := "" |} /\
  ParseOCIRef "oci://ghcr.io/org/skill@sha256:abc123"
  = inr {| Registry := "ghcr.io"; Path := "org/skill"; Tag := "";
           Digest := "sha256:abc123" |} /\
  ParseOCIRef "oci://" = inl ErrEmptyReference /\
  ParseOCIRef "oci://justregistry" = inl ErrNeedRegistryAndName /\
  OCIRef_String {| Registry := "ghcr.io"; Path := "org/skill"; Tag := "v1.0"; Digest := "" |}
  = "oci://ghcr.io/org/skill:v1.0" /\
  OCIRef_String {| Registry := "ghcr.io"; Path := "org/skill"; Tag := "";
                   Digest := "sha256:abc" |}
  = "oci://ghcr.io/org/skill@sha256:abc".
Proof. repeat split; vm_compute; reflexivity. Qed.

(** *** Strings *)

Lemma append_assoc (a b c : string) : (a +:+ b) +:+ c = a +:+ b +:+ c.
Proof.
  induction a as [|x a IH]; [reflexivity|]. by rewrite !append_cons, IH.
Qed.

Lemma append_nonempty (a w : string) (c : ascii) : a +:+ String c w <> "".
Proof. destruct a; [discriminate|]. rewrite append_cons. discriminate. Qed.

Lemma occurs_append (c : ascii) (a b : string) :
  occurs c (a +:+ b) = occurs c a || occurs c b.
Proof.
  induction a as [|x a IH]; [reflexivity|].
  rewrite append_cons. simpl. by rewrite IH, orb_assoc.
Qed.

Lemma sliceTo_append (a b : string) : sliceTo (a +:+ b) (String.length a) = a.
Proof.
  unfold sliceTo. induction a as [|x a IH]; [by destruct b|].
  rewrite append_cons. simpl. by rewrite IH.
Qed.

Lemma sliceFrom_append (a b : string) : sliceFrom (a +:+ b) (String.length a) = b.
Proof. apply substring_append. Qed.

Lemma sliceFrom_after (l t : string) (c : ascii) :
  sliceFrom (l +:+ String c t) (String.length l + 1) = t.
Proof.
  change (l +:+ String c t) with (l +:+ String c "" +:+ t).
  rewrite <- append_assoc.
  replace (String.length l + 1)%nat with (String.length (l +:+ String c ""))
    by (rewrite length_append; reflexivity).
  apply sliceFrom_append.
Qed.

Lemma TrimPrefix_append (p s : string) : TrimPrefix (p +:+ s) p = s.
Proof. unfold TrimPrefix. rewrite prefix_append. apply substring_append. Qed.

(** *** The first occurrence of the digest mark *)

Lemma index_here (sep s : string) :
  String.prefix sep s = true -> s <> "" -> String.index 0 sep s = Some 0%nat.
Proof.
  intros Hp Hs. destruct s as [|b s]; [done|].
  change (String.index 0 sep (String b s))
    with (if String.prefix sep (String b s) then Some 0%nat
          else match String.index 0 sep s with
               | Some n => Some (S n)
               | None => None
               end).
  by rewrite Hp.
Qed.

Lemma index_later (sep s : string) (b : ascii) :
  String.prefix sep (String b s) = false ->
  String.index 0 sep (String b s) = S <$> String.index 0 sep s.
Proof.
  intros Hp.
  change (String.index 0 sep (String b s))
    with (if String.prefix sep (String b s) then Some 0%nat
          else match String.index 0 sep s with
               | Some n => Some (S n)
               | None => None
               end).
  rewrite Hp. by destruct (String.index 0 sep s).
Qed.

Lemma prefix_mark_false (b : ascii) (s : string) :
  Ascii.eqb b "@" = false -> String.prefix "@sha256:" (String b s) = false.
Proof.
  intros Hb.
  change (String.prefix "@sha256:" (String b s))
    with (match ascii_dec "@"%char b with
          | left _ => String.prefix "sha256:" s
          | right _ => false
          end).
  destruct (ascii_dec "@"%char b) as [<-|_]; [discriminate Hb|done].
Qed.

Lemma Index_absent (s : string) :
  occurs "@" s = false -> Index s "@sha256:" = None.
Proof.
  unfold Index. induction s as [|b s IH]; intros H; [reflexivity|].
  simpl in H. apply orb_false_iff in H as [Hb Hs].
  rewrite index_later by by apply prefix_mark_false.
  by rewrite IH.
Qed.

Lemma Index_at (a d : string) :
  occurs "@" a = false ->
  Index (a +:+ "@sha256:" +:+ d) "@sha256:" = Some (String.length a).
Proof.
  unfold Index. induction a as [|b a IH]; intros H.
  - apply index_here; [apply (prefix_append "@sha256:" d)|].
    apply (append_nonempty "" ("sha256:" +:+ d) "@").
  - simpl in H. apply orb_false_iff in H as [Hb Ha].
    rewrite append_cons. rewrite index_later by by apply prefix_mark_false.
    by rewrite IH.
Qed.

(** *** Splitting and joining *)

Lemma Split_absent (c : ascii) (s : string) :
  occurs c s = false -> Split s c = [s].
Proof.
  induction s as [|a s IH]; intros H; [reflexivity|].
  simpl in H. apply orb_false_iff in H as [Ha Hs].
  simpl. by rewrite Ha, IH.
Qed.

Lemma Split_sep (c : ascii) (a b : string) :
  occurs c a = false -> Split (a +:+ String c b) c = a :: Split b c.
Proof.
  induction a as [|x a IH]; intros H.
  - change ("" +:+ String c b) with (String c b). simpl. by rewrite Ascii.eqb_refl.
  - simpl in H. apply orb_false_iff in H as [Hx Ha].
    rewrite append_cons. simpl. by rewrite Hx, IH.
Qed.

Lemma Split_snoc (c : ascii) (s : string) :
  exists init l,
    Split s c = init ++ [l] /\
    (forall x, occurs x s = false -> occurs x l = false) /\
    forall t, occurs c t = false -> Split (s +:+ t) c = init ++ [l +:+ t].
Proof.
  induction s as [|a s IH].
  - exists [], "". split; [done|]. split; [done|].
    intros t Ht. change ("" +:+ t) with t. by apply Split_absent.
  - destruct IH as (init & l & Hs & Hl & Happ).
    assert (Hcons : forall t, Split (String a s +:+ t) c
                              = if Ascii.eqb a c then "" :: Split (s +:+ t) c
                                else match Split (s +:+ t) c with
                                     | p :: ps => String a p :: ps
                                     | [] => [String a ""]
                                     end) by reflexivity.
    assert (Hocc : forall x, occurs x (String a s) = false ->
                             Ascii.eqb a x = false /\ occurs x l = false).
    { intros x Hx. simpl in Hx. apply orb_false_iff in Hx as [Hxa Hx].
      split; [done|by apply Hl]. }
    destruct (Ascii.eqb a c) eqn:Hac.
    + exists ("" :: init), l. split; [simpl; by rewrite Hac, Hs|]. split.
      * intros x Hx. by apply Hocc.
      * intros t Ht. rewrite Hcons, Happ by done. reflexivity.
    + destruct init as [|p ps].
      * exists [], (String a l). split; [simpl; by rewrite Hac, Hs|]. split.
        -- intros x Hx. apply Hocc in Hx as [Hxa Hx]. simpl. by rewrite Hxa, Hx.
        -- intros t Ht. rewrite Hcons, Happ by done. reflexivity.
      * exists (String a p :: ps), l. split; [simpl; by rewrite Hac, Hs|]. split.
        -- intros x Hx. by apply Hocc.
        -- intros t Ht. rewrite Hcons, Happ by done. reflexivity.
Qed.

Lemma Join_Split (c : ascii) (s : string) : Join (Split s c) (String c "") = s.
Proof.
  induction s as [|a s IH]; [reflexivity|].
  destruct (Split_snoc c s) as (init & l & Hs & _ & _).
  simpl Split. destruct (Ascii.eqb a c) eqn:Hac.
  - apply Ascii.eqb_eq in Hac as ->.
    destruct (Split s c) as [|q qs] eqn:Hq; [by destruct init|].
    change (Join ("" :: q :: qs) (String c ""))
      with ("" +:+ String c "" +:+ Join (q :: qs) (String c "")).
    rewrite IH. reflexivity.
  - destruct (Split s c) as [|q qs] eqn:Hq; [by destruct init|].
    destruct qs as [|q' qs].
    + simpl in *. by rewrite IH.
    + change (Join (String a q :: q' :: qs) (String c ""))
        with (String a q +:+ String c "" +:+ Join (q' :: qs) (String c "")).
      change (Join (q :: q' :: qs) (String c ""))
        with (q +:+ String c "" +:+ Join (q' :: qs) (String c "")) in IH.
      by rewrite append_cons, IH.
Qed.

Lemma LastIndex_absent (c : ascii) (s : string) :
  occurs c s = false -> LastIndex s c = None.
Proof.
  induction s as [|a s IH]; intros H; [reflexivity|].
  simpl in H. apply orb_false_iff in H as [Ha Hs].
  simpl. by rewrite IH, Ha.
Qed.

Lemma LastIndex_at (c : ascii) (l t : string) :
  occurs c t = false -> LastIndex (l +:+ String c t) c = Some (String.length l).
Proof.
  intros Ht. induction l as [|a l IH].
  - change ("" +:+ String c t) with (String c t). simpl.
    by rewrite LastIndex_absent, Ascii.eqb_refl.
  - rewrite append_cons. simpl. by rewrite IH.
Qed.

(** *** Parsing what [String] writes *)

(** X27: parsing the string written for a reference gives the reference
    back, for a reference with a registry without slash, no at sign in
    registry and path, and either a tag and no digest, the tag not empty and
    without colon, slash and at sign, or a digest that starts with sha256:
    and no tag, the path then without colon. *)
Theorem ParseOCIRef_of_String (r : OCIRef) :
  occurs "/" (Registry r) = false ->
  occurs "@" (Registry r) = false ->
  occurs "@" (Path r) = false ->
  (Digest r = "" /\ Tag r <> "" /\
   occurs ":" (Tag r) = false /\ occurs "/" (Tag r) = false /\
   occurs "@" (Tag r) = false) \/
  (Tag r = "" /\ String.prefix "sha256:" (Digest r) = true /\
   occurs ":" (Path r) = false) ->
  ParseOCIRef (OCIRef_String r) = inr r.
Proof.
  destruct r as [reg path tag dig]. simpl. intros Hreg Hregat Hpathat Hcase.
  destruct (Split_snoc "/" path) as (init & l & Hsplit & Hl & Hsnoc).
  assert (Hjoin : Join (init ++ [l]) "/" = path).
  { rewrite <- Hsplit. apply (Join_Split "/"). }
  destruct Hcase as [(-> & Htag & Htc & Hts & Hta)|(-> & Hdig & Hpc)].
  - unfold OCIRef_String. simpl.
    rewrite (bool_decide_eq_false_2 (tag = "")) by done. simpl.
    unfold ParseOCIRef.
    rewrite !append_assoc, TrimPrefix_append.
    change ("/" +:+ path +:+ ":" +:+ tag) with (String "/" (path +:+ String ":" tag)).
    assert (Hat : occurs "@" (reg +:+ String "/" (path +:+ String ":" tag)) = false).
    { rewrite occurs_append, Hregat. simpl. rewrite occurs_append, Hpathat. simpl.
      exact Hta. }
    assert (Hsl : occurs "/" (String ":" tag) = false) by (simpl; exact Hts).
    rewrite bool_decide_eq_false_2 by apply append_nonempty.
    rewrite (Index_absent _ Hat). cbv beta iota zeta.
    rewrite (Split_sep "/" reg _ Hreg), (Hsnoc _ Hsl).
    change (reg :: init ++ [l +:+ String ":" tag])
      with ((reg :: init) ++ [l +:+ String ":" tag]).
    rewrite List.last_last, (LastIndex_at ":" l tag Htc).
    rewrite length_app. simpl length.
    rewrite (proj2 (Nat.ltb_ge _ 2)) by lia. cbv beta iota zeta.
    replace (S (length init) + 1 - 1)%nat with (length (reg :: init) + 0)%nat
      by (simpl; lia).
    rewrite insert_app_r.
    rewrite sliceFrom_after, sliceTo_append.
    rewrite (bool_decide_eq_false_2 (tag = "")) by done. simpl.
    by rewrite Hjoin.
  - assert (Hne : dig <> "") by (intros ->; discriminate Hdig).
    apply prefix_split in Hdig.
    change (String.length "sha256:") with 7%nat in Hdig.
    set (d := substring 7 (String.length dig - 7) dig) in *.
    unfold OCIRef_String. simpl.
    rewrite (bool_decide_eq_false_2 (dig = "")) by done. simpl.
    unfold ParseOCIRef.
    rewrite !append_assoc, TrimPrefix_append.
    change ("/" +:+ path +:+ "@" +:+ dig) with (String "/" (path +:+ String "@" dig)).
    rewrite bool_decide_eq_false_2 by apply append_nonempty.
    assert (HZ : reg +:+ String "/" (path +:+ String "@" dig)
                 = (reg +:+ String "/" path) +:+ String "@" dig).
    { by rewrite append_assoc. }
    assert (Hat : occurs "@" (reg +:+ String "/" path) = false).
    { rewrite occurs_append, Hregat. simpl. exact Hpathat. }
    assert (Hidx : Index ((reg +:+ String "/" path) +:+ String "@" dig) "@sha256:"
                   = Some (String.length (reg +:+ String "/" path))).
    { rewrite Hdig. exact (Index_at _ d Hat). }
    rewrite HZ, Hidx. cbv beta iota zeta.
    rewrite sliceFrom_after, sliceTo_append.
    rewrite (Split_sep "/" reg _ Hreg), Hsplit.
    change (reg :: init ++ [l]) with ((reg :: init) ++ [l]).
    rewrite List.last_last, (LastIndex_absent ":" l (Hl _ Hpc)).
    rewrite length_app. simpl length.
    rewrite (proj2 (Nat.ltb_ge _ 2)) by lia. cbv beta iota zeta.
    rewrite (bool_decide_eq_false_2 (dig = "")) by done.
    rewrite andb_false_r. simpl. by rewrite Hjoin.
Qed.

(** *** What a parsed reference looks like *)

Lemma Split_segments (c : ascii) (s : string) :
  Forall (fun p => occurs c p = false) (Split s c).
Proof.
  induction s as [|a s IH]; [by repeat constructor|].
  simpl. destruct (Ascii.eqb a c) eqn:Hac; [by constructor|].
  destruct (Split s c) as [|p ps]; [by repeat constructor; simpl; rewrite Hac|].
  apply Forall_cons in IH as [Hp Hps].
  constructor; [simpl; by rewrite Hac, Hp|done].
Qed.

Lemma sliceFrom_cons (a : ascii) (s : string) (i : nat) :
  sliceFrom (String a s) (S i) = sliceFrom s i.
Proof. reflexivity. Qed.

Lemma sliceFrom_zero (s : string) : sliceFrom s 0 = s.
Proof. unfold sliceFrom. rewrite Nat.sub_0_r. apply substring_whole. Qed.

Lemma LastIndex_none (c : ascii) (s : string) :
  LastIndex s c = None -> occurs c s = false.
Proof.
  induction s as [|a s IH]; [done|]. simpl.
  destruct (LastIndex s c); [discriminate|].
  destruct (Ascii.eqb a c); [discriminate|]. intros _. by apply IH.
Qed.

Lemma LastIndex_tail (c : ascii) (s : string) (i : nat) :
  LastIndex s c = Some i ->
  occurs c (sliceFrom s (i + 1)) = false /\
  forall x, occurs x s = false -> occurs x (sliceFrom s (i + 1)) = false.
Proof.
  revert i. induction s as [|a s IH]; intros i; [discriminate|]. simpl LastIndex.
  destruct (LastIndex s c) as [j|] eqn:Hj.
  - intros [= <-]. change (S j + 1)%nat with (S (j + 1)). rewrite sliceFrom_cons.
    destruct (IH j eq_refl) as [Hc Hx]. split; [done|].
    intros x Hxs. simpl in Hxs. apply orb_false_iff in Hxs as [_ Hxs]. by apply Hx.
  - destruct (Ascii.eqb a c); [|discriminate]. intros [= <-].
    change (0 + 1)%nat with 1%nat. rewrite sliceFrom_cons, sliceFrom_zero.
    split; [by apply LastIndex_none|].
    intros x Hxs. simpl in Hxs. by apply orb_false_iff in Hxs as [_ Hxs].
Qed.

Lemma Index_digest (s : string) (m : nat) :
  Index s "@sha256:" = Some m ->
  String.prefix "sha256:" (sliceFrom s (m + 1)) = true.
Proof.
  unfold Index. revert m. induction s as [|b s IH]; intros m; [discriminate|].
  destruct (String.prefix "@sha256:" (String b s)) eqn:Hp.
  - rewrite index_here by done. intros [= <-].
    change (0 + 1)%nat with 1%nat. rewrite sliceFrom_cons, sliceFrom_zero.
    change (String.prefix "@sha256:" (String b s))
      with (match ascii_dec "@"%char b with
            | left _ => String.prefix "sha256:" s
            | right _ => false
            end) in Hp.
    by destruct (ascii_dec "@"%char b).
  - rewrite index_later by done.
    destruct (String.index 0 "@sha256:" s) as [j|]; [|discriminate].
    intros [= <-]. change (S j + 1)%nat with (S (j + 1)). rewrite sliceFrom_cons.
    by apply IH.
Qed.

Lemma last_in (parts : list string) :
  parts <> [] -> List.last parts "" ∈ parts.
Proof.
  induction parts as [|p [|q ps] IH]; intros Hne; [done|by left|].
  right. by apply IH.
Qed.

(** X28: a reference that parses has a registry without slash, a tag
    without colon and slash, a tag or a digest, and a digest that is empty
    or starts with sha256:. *)
Theorem ParseOCIRef_shape (ref : string) (r : OCIRef) :
  ParseOCIRef ref = inr r ->
  occurs "/" (Registry r) = false /\
  occurs ":" (Tag r) = false /\
  occurs "/" (Tag r) = false /\
  (Tag r <> "" \/ Digest r <> "") /\
  (Digest r = "" \/ String.prefix "sha256:" (Digest r) = true).
Proof.
  unfold ParseOCIRef. set (t := TrimPrefix ref "oci://").
  case_bool_decide as Ht; [discriminate|].
  assert (Hcore : forall (digest body : string),
             (digest = "" \/ String.prefix "sha256:" digest = true) ->
             (let parts := Split body "/" in
              if (length parts <? 2)%nat then inl ErrNeedRegistryAndName
              else
                let last := List.last parts "" in
                let '(tag, parts) :=
                  match LastIndex last ":" with
                  | Some idx =>
                      (sliceFrom last (idx + 1),
                       <[(length parts - 1)%nat := sliceTo last idx]> parts)
                  | None => ("", parts)
                  end in
                let tag :=
                  if bool_decide (tag = "") && bool_decide (digest = "")
                  then "latest" else tag in
                inr {| Registry := default "" (head parts);
                       Path := Join (tail parts) "/";
                       Tag := tag;
                       Digest := digest |}) = inr r ->
             occurs "/" (Registry r) = false /\
             occurs ":" (Tag r) = false /\
             occurs "/" (Tag r) = false /\
             (Tag r <> "" \/ Digest r <> "") /\
             (Digest r = "" \/ String.prefix "sha256:" (Digest r) = true)).
  { intros digest body Hdig. cbv zeta.
    pose proof (Split_segments "/" body) as Hseg.
    destruct (Split body "/") as [|p [|q ps]] eqn:Hparts; [discriminate|discriminate|].
    change (length (p :: q :: ps) <? 2)%nat with false. cbv iota.
    assert (Hlast : occurs "/" (List.last (p :: q :: ps) "") = false).
    { rewrite Forall_forall in Hseg. apply Hseg. by apply last_in. }
    assert (Hp : occurs "/" p = false) by by apply Forall_cons in Hseg as [? _].
    assert (Hfinal : forall tag parts',
               head parts' = Some p ->
               occurs ":" tag = false -> occurs "/" tag = false ->
               @inr ParseError OCIRef
                    {| Registry := default "" (head parts');
                       Path := Join (tail parts') "/";
                       Tag := if bool_decide (tag = "") && bool_decide (digest = "")
                              then "latest" else tag;
                       Digest := digest |} = inr r ->
               occurs "/" (Registry r) = false /\
               occurs ":" (Tag r) = false /\
               occurs "/" (Tag r) = false /\
               (Tag r <> "" \/ Digest r <> "") /\
               (Digest r = "" \/ String.prefix "sha256:" (Digest r) = true)).
    { intros tag parts' Hhead Htc Hts [= <-]. simpl. rewrite Hhead. simpl.
      split; [done|].
      case_bool_decide as Htag; case_bool_decide as Hd; simpl;
        (split; [done|]); (split; [done|]); (split; [|done]).
      - by left.
      - by right.
      - by left.
      - by left. }
    destruct (LastIndex (List.last (p :: q :: ps) "") ":") as [idx|] eqn:Hidx.
    - destruct (LastIndex_tail ":" _ idx Hidx) as [Htc Hx].
      apply Hfinal; [reflexivity|done|by apply Hx].
    - by apply Hfinal. }
  destruct (Index t "@sha256:") as [idx|] eqn:Hidx.
  - apply Hcore. right. by apply Index_digest.
  - apply Hcore. by left.
Qed.

End SkillsFacts.

Section SkillsWitness.
Import Skills.

Lemma ParseOCIRef_of_String_witness :
  ParseOCIRef (OCIRef_String {| Registry := "ghcr.io:5000"; Path := "org/skill";
                                Tag := ""; Digest := "sha256:abc" |})
  = inr {| Registry := "ghcr.io:5000"; Path := "org/skill"; Tag := "";
           Digest := "sha256:abc" |}.
Proof.
  apply ParseOCIRef_of_String; try reflexivity.
  right. by repeat split.
Defined.

Lemma ParseOCIRef_shape_witness :
  let r := {| Registry := "ghcr.io"; Path := "org/skill"; Tag := "v1.0"; Digest := "" |} in
  occurs "/" (Registry r) = false /\
  occurs ":" (Tag r) = false /\
  occurs "/" (Tag r) = false /\
  (Tag r <> "" \/ Digest r <> "") /\
  (Digest r = "" \/ String.prefix "sha256:" (Digest r) = true).
Proof.
  intros r. apply (ParseOCIRef_shape "oci://ghcr.io/org/skill:v1.0" r).
  vm_compute. reflexivity.
Defined.

End SkillsWitness.
